(** * GameBoard: the round state machine of the mines game

    A shallow embedding of [src/components/GameBoard.tsx].  The component keeps
    one [GameState] in a React state cell.  Every handler reads the snapshot
    [gameState] of the current render for its guards and queues updater
    functions [prev => next] with [setGameState]; React then applies the queued
    updaters in order to the committed state.  The embedding keeps both levels:
    a handler maps the render snapshot to the list of updaters it queues, and
    [commit] folds them over the state.

    JavaScript numbers that carry money ([stake], [balance], [multiplier],
    [potentialPayout]) are embedded as exact rationals [Q], so the rounding of
    doubles is left out; counts and indices are integers. *)

From Stdlib Require Import ZArith QArith Qabs List Bool Lia Lqa.
Import ListNotations.

Open Scope Q_scope.

(** ** JavaScript arrays of booleans

    [revealed] is written by index ([newRevealed[index] = true]) with an index
    the handler never checks against the length, so the three behaviours of a
    JavaScript array matter: a write inside the array replaces the element, a
    write at or past the length extends the array (leaving holes), a write at a
    negative key creates an own property that is no element.  A hole and a
    missing key read as [undefined], which every use in the component coerces
    to [false].  Every non-negative key is written as an element here; in
    JavaScript that is so for the array indices, the keys below 2^32 - 1, and
    the statements about the length and the count of [revealed] are made for
    those. *)

Module JsArray.

Record t : Type := mk {
  items : list bool;        (* the elements 0 .. length-1 *)
  props : list (Z * bool)   (* own properties at negative keys, newest first *)
}.

(** [Array(n).fill(v)] *)
Definition fill (n : nat) (v : bool) : t := mk (repeat v n) [].

Fixpoint lookup (k : Z) (ps : list (Z * bool)) : bool :=
  match ps with
  | [] => false
  | (k', v) :: rest => if Z.eqb k k' then v else lookup k rest
  end.

(** [a[i]], coerced to a boolean *)
Definition get (a : t) (i : Z) : bool :=
  if Z.ltb i 0 then lookup i (props a) else nth (Z.to_nat i) (items a) false.

Fixpoint write (l : list bool) (n : nat) (v : bool) : list bool :=
  match l, n with
  | [], O => [v]
  | [], S k => false :: write [] k v
  | _ :: rest, O => v :: rest
  | x :: rest, S k => x :: write rest k v
  end.

(** [a[i] = v] *)
Definition set (a : t) (i : Z) (v : bool) : t :=
  if Z.ltb i 0 then mk (items a) ((i, v) :: props a)
  else mk (write (items a) (Z.to_nat i) v) (props a).

(** [[...a]]: the spread copies the elements only *)
Definition spread (a : t) : t := mk (items a) [].

(** [a.some(Boolean)]: visits the elements only *)
Definition some (a : t) : bool := existsb (fun b => b) (items a).

(** [a.filter(Boolean).length] *)
Definition countTrue (a : t) : nat := length (filter (fun b => b) (items a)).

End JsArray.

(** ** Types of [../types/game] as the component uses them *)

Record GameSettings : Type := {
  gridSize : nat;
  maxMines : Z;
  baseMultiplier : Q;
  riskFactor : Q
}.

Record GameState : Type := mkGameState {
  blocks : list bool;            (* true = gem, false = ruby *)
  revealed : JsArray.t;
  gameOver : bool;
  score : nat;
  stake : Q;
  multiplier : Q;
  potentialPayout : Q;
  mineCount : Z;
  balance : Q;
  isPlaying : bool;
  isLockedIn : bool
}.

Definition GAME_SETTINGS : GameSettings := {|
  gridSize := 25;
  maxMines := 15;
  baseMultiplier := 1.2;
  riskFactor := 0.1
|}.

(** [blocks[index]], coerced to a boolean; [blocks] is never written by index *)
Definition blockAt (bs : list bool) (index : Z) : bool :=
  if Z.ltb index 0 then false else nth (Z.to_nat index) bs false.

(** [a > b] on numbers *)
Definition Qgt_bool (a b : Q) : bool := negb (Qle_bool a b).

(** Modelled from the spec: [calculatePotentialPayout] of
    [../utils/gameCalculations], which is not part of the sources at hand;
    the spec gives it as stake times multiplier. *)
Definition calculatePotentialPayout (stake multiplier : Q) : Q :=
  stake * multiplier.

(** The sounds [playGameSound] is asked for. *)
Inductive sound : Type := gem | ruby.

(** What one run of a handler leaves behind: the updaters it passed to
    [setGameState], oldest first, and the sounds it played. *)
Record effects : Type := {
  updates : list (GameState -> GameState);
  played : list sound
}.

Definition noEffects : effects := {| updates := []; played := [] |}.

(** React applies the queued updaters in order. *)
Definition commit (fx : effects) (s : GameState) : GameState :=
  fold_left (fun prev u => u prev) (updates fx) s.

(** The player actions of the spec; an action that draws a grid carries the
    values [Math.random()] returns for it, one per cell. *)
Inductive action : Type :=
| deposit (amount : Q)
| setStake (newStake : Q)
| setHazardCount (n : Z) (random : nat -> Q)
| newRound (random : nat -> Q)
| lockIn
| reveal (index : Z)
| cashOut (random : nat -> Q).

Section GameBoard.

(** [calculateMultiplier] of [../utils/gameCalculations] is not part of the
    sources at hand; the component is parametric in it. *)
Variable calculateMultiplier : Q -> Q -> nat -> Q.

(** [Array(gridSize).fill(false).map(() => Math.random() >= mineCount / gridSize)] *)
Definition drawBlocks (size : nat) (mines : Z) (random : nat -> Q) : list bool :=
  map (fun i => Qle_bool (inject_Z mines / inject_Z (Z.of_nat size)) (random i))
      (seq 0 size).

Definition initialGameState (settings : GameSettings) (mines : Z)
    (savedBalance : Q) (random : nat -> Q) : GameState := {|
  blocks := drawBlocks (gridSize settings) mines random;
  revealed := JsArray.fill (gridSize settings) false;
  gameOver := false;
  score := 0;
  stake := 1.0;
  multiplier := baseMultiplier settings;
  potentialPayout := baseMultiplier settings;
  mineCount := mines;
  balance := savedBalance;
  isPlaying := false;
  isLockedIn := false
|}.

Definition handleDeposit (amount : Q) : effects := {|
  updates := [fun prev => {|
    blocks := blocks prev; revealed := revealed prev; gameOver := gameOver prev;
    score := score prev; stake := stake prev; multiplier := multiplier prev;
    potentialPayout := potentialPayout prev; mineCount := mineCount prev;
    balance := balance prev + amount;
    isPlaying := isPlaying prev; isLockedIn := isLockedIn prev |}];
  played := []
|}.

Definition handleStakeChange (gameState : GameState) (newStake : Q) : effects :=
  if Qle_bool newStake (balance gameState) then {|
    updates := [fun prev => {|
      blocks := blocks prev; revealed := revealed prev; gameOver := gameOver prev;
      score := score prev;
      stake := newStake;
      multiplier := multiplier prev;
      potentialPayout := calculatePotentialPayout newStake (multiplier prev);
      mineCount := mineCount prev; balance := balance prev;
      isPlaying := isPlaying prev; isLockedIn := isLockedIn prev |}];
    played := [] |}
  else noEffects.

Definition handleMineCountChange (gameState : GameState) (newMineCount : Z)
    (random : nat -> Q) : effects :=
  if negb (JsArray.some (revealed gameState)) then {|
    updates := [fun prev => {|
      blocks := drawBlocks (gridSize GAME_SETTINGS) newMineCount random;
      revealed := revealed prev; gameOver := gameOver prev;
      score := score prev; stake := stake prev; multiplier := multiplier prev;
      potentialPayout := potentialPayout prev;
      mineCount := newMineCount;
      balance := balance prev;
      isPlaying := isPlaying prev; isLockedIn := isLockedIn prev |}];
    played := [] |}
  else noEffects.

(** [{...initialGameState(..), stake: prev.stake}] *)
Definition withStake (s : GameState) (newStake : Q) : GameState := {|
  blocks := blocks s; revealed := revealed s; gameOver := gameOver s;
  score := score s;
  stake := newStake;
  multiplier := multiplier s; potentialPayout := potentialPayout s;
  mineCount := mineCount s; balance := balance s;
  isPlaying := isPlaying s; isLockedIn := isLockedIn s |}.

Definition handleNewGame (random : nat -> Q) : effects := {|
  updates := [fun prev =>
    withStake (initialGameState GAME_SETTINGS (mineCount prev) (balance prev) random)
              (stake prev)];
  played := []
|}.

Definition handleLockIn (gameState : GameState) : effects :=
  if Qle_bool (stake gameState) (balance gameState) then {|
    updates := [fun prev => {|
      blocks := blocks prev; revealed := revealed prev; gameOver := gameOver prev;
      score := score prev; stake := stake prev; multiplier := multiplier prev;
      potentialPayout := potentialPayout prev; mineCount := mineCount prev;
      balance := balance prev; isPlaying := isPlaying prev;
      isLockedIn := true |}];
    played := [] |}
  else noEffects.

(** The first updater of [handleBlockClick]: the debit of the first click. *)
Definition debitStake (prev : GameState) : GameState := {|
  blocks := blocks prev; revealed := revealed prev; gameOver := gameOver prev;
  score := score prev; stake := stake prev; multiplier := multiplier prev;
  potentialPayout := potentialPayout prev; mineCount := mineCount prev;
  balance := balance prev - stake prev;
  isPlaying := true;
  isLockedIn := isLockedIn prev |}.

(** The updater of the gem branch. *)
Definition foundGem (newRevealed : JsArray.t) (newScore : nat) (newMultiplier : Q)
    (prev : GameState) : GameState := {|
  blocks := blocks prev;
  revealed := newRevealed;
  gameOver := gameOver prev;
  score := newScore;
  stake := stake prev;
  multiplier := newMultiplier;
  potentialPayout := calculatePotentialPayout (stake prev) newMultiplier;
  mineCount := mineCount prev; balance := balance prev;
  isPlaying := isPlaying prev; isLockedIn := isLockedIn prev |}.

(** The updater of the ruby branch. *)
Definition foundRuby (newRevealed : JsArray.t) (prev : GameState) : GameState := {|
  blocks := blocks prev;
  revealed := newRevealed;
  gameOver := true;
  score := score prev; stake := stake prev; multiplier := multiplier prev;
  potentialPayout := potentialPayout prev; mineCount := mineCount prev;
  balance := balance prev;
  isPlaying := false;
  isLockedIn := isLockedIn prev |}.

Definition handleBlockClick (gameState : GameState) (index : Z) : effects :=
  if JsArray.get (revealed gameState) index || gameOver gameState
     || negb (isLockedIn gameState)
  then noEffects
  else
    let isFirstClick := negb (JsArray.some (revealed gameState)) in
    if isFirstClick && Qgt_bool (stake gameState) (balance gameState)
    then noEffects
    else
      let queued := if isFirstClick then [debitStake] else [] in
      let newRevealed := JsArray.set (JsArray.spread (revealed gameState)) index true in
      if blockAt (blocks gameState) index then
        let newScore := (score gameState + 1)%nat in
        let newMultiplier :=
          calculateMultiplier (baseMultiplier GAME_SETTINGS)
                              (riskFactor GAME_SETTINGS) newScore in
        {| updates := queued ++ [foundGem newRevealed newScore newMultiplier];
           played := [gem] |}
      else
        {| updates := queued ++ [foundRuby newRevealed];
           played := [ruby] |}.

Definition handleCashout (random : nat -> Q) : effects := {|
  updates := [fun prev =>
    withStake (initialGameState GAME_SETTINGS (mineCount prev)
                 (balance prev + stake prev * multiplier prev) random)
              (stake prev)];
  played := [gem]
|}.

(** What the render derives for the controls: [revealedCount] and the
    [disabled] flag passed to [GameControls]. *)
Definition revealedCount (gameState : GameState) : nat :=
  JsArray.countTrue (revealed gameState).

Definition controlsDisabled (gameState : GameState) : bool :=
  gameOver gameState || Nat.ltb 0 (revealedCount gameState).

(** The [disabled] flag the render passes to every [Block]. *)
Definition blockDisabled (gameState : GameState) : bool :=
  gameOver gameState || negb (isLockedIn gameState).

(** The handler an action reaches, run against the current render. *)
Definition dispatch (gameState : GameState) (a : action) : effects :=
  match a with
  | deposit amount => handleDeposit amount
  | setStake newStake => handleStakeChange gameState newStake
  | setHazardCount n random => handleMineCountChange gameState n random
  | newRound random => handleNewGame random
  | lockIn => handleLockIn gameState
  | reveal index => handleBlockClick gameState index
  | cashOut random => handleCashout random
  end.

(** One action: the handler closes over the committed state (the component has
    re-rendered since the last action) and its updaters are committed. *)
Definition step (s : GameState) (a : action) : GameState :=
  commit (dispatch s a) s.

Definition run (s : GameState) (acts : list action) : GameState :=
  fold_left step acts s.

(** The state the component mounts with: [initialGameState(GAME_SETTINGS, 5, saved)]. *)
Definition mountState (savedBalance : Q) (random : nat -> Q) : GameState :=
  initialGameState GAME_SETTINGS 5 savedBalance random.

End GameBoard.

(** ** Sample data for the concrete runs *)

(** Modelled from the spec: an instance of [calculateMultiplier], which is not
    part of the sources at hand; the spec asks for the base multiplier at zero
    safe reveals and compounding growth by the risk factor per safe reveal. *)
Fixpoint compoundMultiplier (base risk : Q) (safeRevealCount : nat) : Q :=
  match safeRevealCount with
  | O => base
  | S k => compoundMultiplier base risk k * (1 + risk)
  end.

(** Draws of [Math.random()] that make every cell a gem, respectively a ruby,
    at five mines on twenty-five cells. *)
Definition allGems : nat -> Q := fun _ => 0.5.
Definition allRubies : nat -> Q := fun _ => 0.

(** A mounted board with a balance of 10, then locked in. *)
Definition lockedBoard (random : nat -> Q) : GameState :=
  run compoundMultiplier (mountState 10 random) [lockIn].

(** The same board after a first safe reveal. *)
Definition playingBoard : GameState :=
  run compoundMultiplier (mountState 10 allGems) [lockIn; reveal 0].

(** A board whose round ended on a ruby. *)
Definition lostBoard : GameState :=
  run compoundMultiplier (mountState 10 allRubies) [lockIn; reveal 3].

(** The mounted board with a stake of 2 entered. *)
Definition stakedBoard : GameState :=
  run compoundMultiplier (mountState 10 allGems) [setStake 2].

(** A session over two rounds: a win that is cashed out, then a loss. *)
Definition sampleSession : list action :=
  [deposit 5; setStake 2; setHazardCount 3 allGems; lockIn; reveal 0; reveal 1;
   cashOut allRubies; lockIn; reveal 3; newRound allGems].

(** What a claim about action sequences may assume of the player's inputs. *)
Definition nonNegativeAmount (a : action) : Prop :=
  match a with
  | deposit amount => 0 <= amount
  | setStake newStake => 0 <= newStake
  | _ => True
  end.

Definition hazardCountInRange (a : action) : Prop :=
  match a with
  | setHazardCount n _ => (1 <= n <= maxMines GAME_SETTINGS)%Z
  | _ => True
  end.

(** The index lies outside the grid. *)
Definition outOfBounds (index : Z) : Prop :=
  (index < 0 \/ Z.of_nat (gridSize GAME_SETTINGS) <= index)%Z.

(** The actions whose updater starts from [initialGameState]. *)
Definition startsRound (a : action) : bool :=
  match a with
  | newRound _ | cashOut _ => true
  | _ => false
  end.

(** The actions that neither start a round nor deposit: the ones that can
    follow a click within its round without a credit from outside. *)
Definition roundAction (a : action) : bool :=
  match a with
  | deposit _ | newRound _ | cashOut _ => false
  | _ => true
  end.

(** The keys JavaScript treats as array indices: 0 .. 2^32 - 2. *)
Definition arrayIndex (i : Z) : Prop := (0 <= i < 2 ^ 32 - 1)%Z.

(** The running balance after credits added one at a time, in order. *)
Definition creditEach (start : Q) (credits : list Q) : Q :=
  fold_left Qplus credits start.

(** The click, if any, addresses a cell of the grid. *)
Definition clickInGrid (a : action) : Prop :=
  match a with
  | reveal index => (0 <= index < Z.of_nat (gridSize GAME_SETTINGS))%Z
  | _ => True
  end.

(** The number of positions that are revealed and hold a gem. *)
Fixpoint gemsFound (shown cells : list bool) : nat :=
  match shown, cells with
  | r :: shown', c :: cells' => (if r && c then 1 else 0) + gemsFound shown' cells'
  | _, _ => 0
  end.

(** ** Array lemmas *)

Module JsArrayFacts.
Import JsArray.

Lemma nth_write (l : list bool) (n : nat) (v : bool) :
  nth n (write l n v) false = v.
Proof.
  revert l; induction n as [|n IH]; intros [|x l]; simpl; auto.
Qed.

Lemma write_true_some (l : list bool) (n : nat) :
  existsb (fun b => b) (write l n true) = true.
Proof.
  revert l; induction n as [|n IH]; intros [|x l]; simpl; auto.
  rewrite IH. apply orb_true_r.
Qed.

Lemma get_set_same (a : t) (i : Z) (v : bool) : get (set a i v) i = v.
Proof.
  unfold get, set. destruct (Z.ltb i 0) eqn:Hi; simpl.
  - now rewrite Z.eqb_refl.
  - apply nth_write.
Qed.

Lemma get_fill_false (n : nat) (i : Z) : get (fill n false) i = false.
Proof.
  unfold get, fill; simpl. destruct (Z.ltb i 0); [reflexivity|].
  generalize (Z.to_nat i) as k. induction n as [|n IH]; intros [|k]; simpl; auto.
Qed.

Lemma some_fill_false (n : nat) : some (fill n false) = false.
Proof. unfold some, fill; simpl. induction n; simpl; auto. Qed.

(** After an index write of [true] the array either holds a true element or
    the key was negative. *)
Lemma some_set_true (a : t) (i : Z) :
  (0 <= i)%Z -> some (set a i true) = true.
Proof.
  intros Hi. unfold some, set.
  destruct (Z.ltb_spec i 0) as [Hneg|_]; [lia|]. simpl. apply write_true_some.
Qed.

End JsArrayFacts.

Lemma blockAt_outside (bs : list bool) (index : Z) :
  (index < 0 \/ Z.of_nat (length bs) <= index)%Z -> blockAt bs index = false.
Proof.
  intros H. unfold blockAt. destruct (Z.ltb_spec index 0) as [|Hge]; [reflexivity|].
  apply nth_overflow. lia.
Qed.

Lemma drawBlocks_length (size : nat) (mines : Z) (random : nat -> Q) :
  length (drawBlocks size mines random) = size.
Proof. unfold drawBlocks. now rewrite length_map, length_seq. Qed.

Lemma Qgt_bool_true (a b : Q) : Qgt_bool a b = true <-> b < a.
Proof.
  unfold Qgt_bool. rewrite negb_true_iff.
  split; intros H.
  - apply Qnot_le_lt. intros Hle. apply Qle_bool_iff in Hle. congruence.
  - destruct (Qle_bool a b) eqn:E; [|reflexivity].
    apply Qle_bool_iff in E. exfalso. exact (Qlt_not_le _ _ H E).
Qed.

Lemma Qgt_bool_false (a b : Q) : Qgt_bool a b = false <-> a <= b.
Proof.
  unfold Qgt_bool. rewrite negb_false_iff. apply Qle_bool_iff.
Qed.

(** ** The handlers, action by action *)

Ltac unfold_step := unfold step, dispatch, commit; simpl.
Ltac unfold_click := unfold step, dispatch, handleBlockClick.

Section Properties.

Variable calculateMultiplier : Q -> Q -> nat -> Q.

Local Abbreviation step := (step calculateMultiplier).
Local Abbreviation run := (run calculateMultiplier).

(** The second updater of an accepted click. *)
Definition clickOutcome (gameState : GameState) (index : Z) : GameState -> GameState :=
  let newRevealed := JsArray.set (JsArray.spread (revealed gameState)) index true in
  if blockAt (blocks gameState) index then
    foundGem newRevealed (score gameState + 1)%nat
      (calculateMultiplier (baseMultiplier GAME_SETTINGS) (riskFactor GAME_SETTINGS)
                           (score gameState + 1)%nat)
  else foundRuby newRevealed.

Lemma step_reveal_rejected (s : GameState) (index : Z) :
  JsArray.get (revealed s) index = true \/ gameOver s = true \/ isLockedIn s = false ->
  step s (reveal index) = s.
Proof.
  intros H. unfold_click.
  assert (G : JsArray.get (revealed s) index || gameOver s || negb (isLockedIn s) = true).
  { destruct H as [H|[H|H]]; rewrite H; simpl;
    repeat rewrite orb_true_r; reflexivity. }
  now rewrite G.
Qed.

Lemma step_reveal_unfunded (s : GameState) (index : Z) :
  JsArray.some (revealed s) = false -> balance s < stake s ->
  step s (reveal index) = s.
Proof.
  intros Hfirst Hlt. unfold_click.
  destruct (JsArray.get (revealed s) index || gameOver s || negb (isLockedIn s));
    [reflexivity|].
  rewrite Hfirst. simpl.
  apply Qgt_bool_true in Hlt. now rewrite Hlt.
Qed.

Lemma step_reveal_first (s : GameState) (index : Z) :
  JsArray.get (revealed s) index = false -> gameOver s = false ->
  isLockedIn s = true -> JsArray.some (revealed s) = false ->
  stake s <= balance s ->
  step s (reveal index) = clickOutcome s index (debitStake s).
Proof.
  intros Hget Hover Hlock Hfirst Hle.
  unfold_click; unfold clickOutcome.
  rewrite Hget, Hover, Hlock, Hfirst. simpl.
  apply Qgt_bool_false in Hle. rewrite Hle.
  destruct (blockAt (blocks s) index); reflexivity.
Qed.

Lemma step_reveal_later (s : GameState) (index : Z) :
  JsArray.get (revealed s) index = false -> gameOver s = false ->
  isLockedIn s = true -> JsArray.some (revealed s) = true ->
  step s (reveal index) = clickOutcome s index s.
Proof.
  intros Hget Hover Hlock Hsome.
  unfold_click; unfold clickOutcome.
  rewrite Hget, Hover, Hlock, Hsome. simpl.
  destruct (blockAt (blocks s) index); reflexivity.
Qed.

(** Every click is one of the four cases above. *)
Lemma step_reveal_cases (s : GameState) (index : Z) :
  step s (reveal index) = s \/
  (JsArray.some (revealed s) = false /\ stake s <= balance s /\
   step s (reveal index) = clickOutcome s index (debitStake s)) \/
  (JsArray.some (revealed s) = true /\
   step s (reveal index) = clickOutcome s index s).
Proof.
  destruct (JsArray.get (revealed s) index) eqn:Hget;
    [left; apply step_reveal_rejected; auto|].
  destruct (gameOver s) eqn:Hover; [left; apply step_reveal_rejected; auto|].
  destruct (isLockedIn s) eqn:Hlock; [|left; apply step_reveal_rejected; auto].
  destruct (JsArray.some (revealed s)) eqn:Hsome.
  - right; right. split; [reflexivity|]. now apply step_reveal_later.
  - destruct (Qlt_le_dec (balance s) (stake s)) as [Hlt|Hle].
    + left. now apply step_reveal_unfunded.
    + right; left. repeat split; auto. now apply step_reveal_first.
Qed.

Lemma clickOutcome_balance (g s : GameState) (index : Z) :
  balance (clickOutcome g index s) = balance s.
Proof. unfold clickOutcome. destruct (blockAt (blocks g) index); reflexivity. Qed.

Lemma clickOutcome_stake (g s : GameState) (index : Z) :
  stake (clickOutcome g index s) = stake s.
Proof. unfold clickOutcome. destruct (blockAt (blocks g) index); reflexivity. Qed.

Lemma clickOutcome_gameOver (g s : GameState) (index : Z) :
  gameOver (clickOutcome g index s) = gameOver s || negb (blockAt (blocks g) index).
Proof.
  unfold clickOutcome. destruct (blockAt (blocks g) index); simpl;
    auto using orb_false_r, orb_true_r.
Qed.

Lemma clickOutcome_revealed (g s : GameState) (index : Z) :
  revealed (clickOutcome g index s) =
  JsArray.set (JsArray.spread (revealed g)) index true.
Proof. unfold clickOutcome. destruct (blockAt (blocks g) index); reflexivity. Qed.

(** Once a cell is revealed or the round is over, a click never moves the
    balance, and that situation persists. *)
Definition debited (s : GameState) : Prop :=
  JsArray.some (revealed s) = true \/ gameOver s = true.

Lemma debited_after_click (g s : GameState) (index : Z) :
  debited (clickOutcome g index s).
Proof.
  unfold debited. rewrite clickOutcome_gameOver, clickOutcome_revealed.
  destruct (Z.ltb_spec index 0) as [Hneg|Hge].
  - right. rewrite (blockAt_outside (blocks g) index) by auto.
    simpl. apply orb_true_r.
  - left. now apply JsArrayFacts.some_set_true.
Qed.

Lemma debited_step_reveal (s : GameState) (index : Z) :
  debited s ->
  debited (step s (reveal index)) /\
  balance (step s (reveal index)) = balance s /\
  stake (step s (reveal index)) = stake s.
Proof.
  intros Hd.
  destruct (step_reveal_cases s index) as [E|[(Hf & _ & E)|(_ & E)]]; rewrite E.
  - auto.
  - destruct Hd as [Hd|Hd]; [congruence|].
    rewrite (step_reveal_rejected s index) in E by auto.
    rewrite <- E. unfold debited. auto.
  - split; [apply debited_after_click|].
    now rewrite clickOutcome_balance, clickOutcome_stake.
Qed.

Lemma debited_run_reveals (later : list Z) (s : GameState) :
  debited s -> balance (run s (map reveal later)) = balance s.
Proof.
  revert s. induction later as [|i later IH]; intros s Hd; [reflexivity|].
  simpl. destruct (debited_step_reveal s i Hd) as (Hd' & Hb & _).
  change (balance (run (step s (reveal i)) (map reveal later)) = balance s).
  now rewrite IH.
Qed.

Lemma debited_step (s : GameState) (a : action) :
  debited s -> startsRound a = false -> debited (step s a).
Proof.
  intros Hd Ha.
  destruct a as [amount|newStake|n random|random| |index|random];
    try discriminate.
  - exact Hd.
  - unfold step, dispatch, handleStakeChange.
    destruct (Qle_bool newStake (balance s)); exact Hd.
  - unfold step, dispatch, handleMineCountChange.
    destruct (JsArray.some (revealed s)); exact Hd.
  - unfold step, dispatch, handleLockIn.
    destruct (Qle_bool (stake s) (balance s)); exact Hd.
  - now apply debited_step_reveal.
Qed.

Lemma debited_balance_step (s : GameState) (a : action) :
  debited s -> roundAction a = true -> balance (step s a) = balance s.
Proof.
  intros Hd Ha.
  destruct a as [amount|newStake|n random|random| |index|random];
    try discriminate.
  - unfold step, dispatch, handleStakeChange.
    destruct (Qle_bool newStake (balance s)); reflexivity.
  - unfold step, dispatch, handleMineCountChange.
    destruct (JsArray.some (revealed s)); reflexivity.
  - unfold step, dispatch, handleLockIn.
    destruct (Qle_bool (stake s) (balance s)); reflexivity.
  - now apply debited_step_reveal.
Qed.

Lemma roundAction_keeps_round (a : action) :
  roundAction a = true -> startsRound a = false.
Proof. destruct a; simpl; congruence. Qed.

Lemma debited_run (acts : list action) (s : GameState) :
  debited s ->
  forallb (fun a => negb (startsRound a)) acts = true ->
  debited (run s acts).
Proof.
  revert s. induction acts as [|a acts IH]; intros s Hd Hall; [exact Hd|].
  simpl in Hall. apply andb_true_iff in Hall. destruct Hall as (Ha & Hall).
  apply negb_true_iff in Ha.
  change (debited (run (step s a) acts)).
  apply IH; [|exact Hall]. now apply debited_step.
Qed.

Lemma debited_balance_run (acts : list action) (s : GameState) :
  debited s -> forallb roundAction acts = true ->
  balance (run s acts) = balance s.
Proof.
  revert s. induction acts as [|a acts IH]; intros s Hd Hall; [reflexivity|].
  simpl in Hall. apply andb_true_iff in Hall. destruct Hall as (Ha & Hall).
  change (balance (run (step s a) acts) = balance s).
  rewrite IH; [now apply debited_balance_step| |exact Hall].
  apply debited_step; [exact Hd|now apply roundAction_keeps_round].
Qed.

(** An accepted click on a ruby, as one updater chain. *)
Lemma step_reveal_ruby (s : GameState) (index : Z) :
  isLockedIn s = true -> gameOver s = false ->
  JsArray.get (revealed s) index = false ->
  (JsArray.some (revealed s) = false -> stake s <= balance s) ->
  blockAt (blocks s) index = false ->
  step s (reveal index) =
  foundRuby (JsArray.set (JsArray.spread (revealed s)) index true)
            (if JsArray.some (revealed s) then s else debitStake s).
Proof.
  intros Hlock Hover Hget Hfund Hruby.
  destruct (JsArray.some (revealed s)) eqn:Hsome.
  - rewrite step_reveal_later by assumption. unfold clickOutcome. now rewrite Hruby.
  - rewrite step_reveal_first by auto. unfold clickOutcome. now rewrite Hruby.
Qed.

Lemma hazard_reveal_ends_round_aux (s : GameState) (index : Z) :
  isLockedIn s = true -> gameOver s = false ->
  JsArray.get (revealed s) index = false ->
  (JsArray.some (revealed s) = false -> stake s <= balance s) ->
  blockAt (blocks s) index = false ->
  gameOver (step s (reveal index)) = true /\
  stake (step s (reveal index)) = stake s /\
  multiplier (step s (reveal index)) = multiplier s.
Proof.
  intros Hlock Hover Hget Hfund Hruby.
  rewrite (step_reveal_ruby s index) by assumption.
  destruct (JsArray.some (revealed s)); repeat split; reflexivity.
Qed.

(** *** Clicks on a cell *)

(** C2 (amended): for a board of [gridSize] cells and an index outside the
    grid, the click is a no-op exactly when the round is not locked in, or is
    over, or the key is already set in [revealed], or it is the first click and
    the stake exceeds the balance.  The handler has no bounds check: in every
    other state the absent cell reads as a ruby and the click ends the round. *)
Theorem reveal_out_of_bounds (s : GameState) (index : Z) :
  length (blocks s) = gridSize GAME_SETTINGS ->
  outOfBounds index ->
  (step s (reveal index) = s <->
   isLockedIn s = false \/ gameOver s = true \/
   JsArray.get (revealed s) index = true \/
   (JsArray.some (revealed s) = false /\ balance s < stake s)) /\
  (step s (reveal index) <> s -> gameOver (step s (reveal index)) = true).
Proof.
  intros Hlen Hout.
  assert (Hruby : blockAt (blocks s) index = false).
  { apply blockAt_outside. unfold outOfBounds in Hout. rewrite Hlen. exact Hout. }
  assert (Hend : forall prev, gameOver (clickOutcome s index prev) = true).
  { intros prev. rewrite clickOutcome_gameOver, Hruby. apply orb_true_r. }
  destruct (isLockedIn s) eqn:Hlock;
    [|split; [split; auto; intros _|intros N; exfalso; apply N];
      apply step_reveal_rejected; auto].
  destruct (gameOver s) eqn:Hover;
    [split; [split; auto; intros _|intros N; exfalso; apply N];
     apply step_reveal_rejected; auto|].
  destruct (JsArray.get (revealed s) index) eqn:Hget;
    [split; [split; auto; intros _|intros N; exfalso; apply N];
     apply step_reveal_rejected; auto|].
  destruct (JsArray.some (revealed s)) eqn:Hsome.
  - rewrite (step_reveal_later s index) by assumption.
    split; [split|intros _; apply Hend].
    + intros E. apply (f_equal gameOver) in E. rewrite Hend, Hover in E. discriminate.
    + intros [H|[H|[H|[H _]]]]; discriminate.
  - destruct (Qlt_le_dec (balance s) (stake s)) as [Hlt|Hle].
    + rewrite (step_reveal_unfunded s index) by assumption.
      split; [split; auto 6|intros N; now elim N].
    + rewrite (step_reveal_first s index) by assumption.
      split; [split|intros _; apply Hend].
      * intros E. apply (f_equal gameOver) in E. rewrite Hend, Hover in E. discriminate.
      * intros [H|[H|[H|[_ H]]]]; try discriminate.
        exfalso. exact (Qlt_not_le _ _ H Hle).
Qed.

(** C5: in a round with no cell revealed yet, a click on a playable cell is a
    no-op when the stake exceeds the balance; otherwise its first updater
    debits the stake ([balance -= stake], [isPlaying] set true) and the
    committed balance is the old balance minus the stake.  From then on, until
    new-game or cash-out, no click moves the balance, whatever deposits, stake
    edits, mine-count edits, lock-ins and clicks came between; and along every
    such sequence without a deposit the balance stays at the old balance minus
    the stake. *)
Theorem first_reveal_debits_once (s : GameState) (index : Z) (later : list Z) :
  JsArray.some (revealed s) = false ->
  isLockedIn s = true -> gameOver s = false ->
  JsArray.get (revealed s) index = false ->
  (balance s < stake s -> step s (reveal index) = s) /\
  (stake s <= balance s ->
   step s (reveal index) = clickOutcome s index (debitStake s) /\
   balance (debitStake s) = balance s - stake s /\
   isPlaying (debitStake s) = true /\
   balance (step s (reveal index)) = balance s - stake s /\
   isPlaying (step s (reveal index)) = blockAt (blocks s) index /\
   balance (run (step s (reveal index)) (map reveal later)) = balance s - stake s /\
   (forall (between : list action) (next : Z),
      forallb (fun a => negb (startsRound a)) between = true ->
      balance (step (run (step s (reveal index)) between) (reveal next)) =
      balance (run (step s (reveal index)) between)) /\
   (forall acts : list action,
      forallb roundAction acts = true ->
      balance (run (step s (reveal index)) acts) = balance s - stake s)).
Proof.
  intros Hfirst Hlock Hover Hget. split.
  - intros Hlt. now apply step_reveal_unfunded.
  - intros Hle. rewrite (step_reveal_first s index) by assumption.
    pose proof (debited_after_click s (debitStake s) index) as Hd.
    split; [reflexivity|]. split; [reflexivity|]. split; [reflexivity|].
    split; [now rewrite clickOutcome_balance|].
    split; [unfold clickOutcome; destruct (blockAt (blocks s) index); reflexivity|].
    split; [|split].
    + rewrite debited_run_reveals by exact Hd.
      now rewrite clickOutcome_balance.
    + intros between next Hall.
      apply debited_step_reveal. now apply debited_run.
    + intros acts Hall. rewrite debited_balance_run by assumption.
      now rewrite clickOutcome_balance.
Qed.

(** C6: an accepted click on a ruby sets [gameOver], clears [isPlaying], marks
    the cell in [revealed], leaves the balance at its value after the debit
    (the old balance minus the stake on a first click, the old balance later),
    and changes neither the score nor the multiplier. *)
Theorem hazard_reveal_ends_round (s : GameState) (index : Z) :
  isLockedIn s = true -> gameOver s = false ->
  JsArray.get (revealed s) index = false ->
  (JsArray.some (revealed s) = false -> stake s <= balance s) ->
  blockAt (blocks s) index = false ->
  gameOver (step s (reveal index)) = true /\
  isPlaying (step s (reveal index)) = false /\
  JsArray.get (revealed (step s (reveal index))) index = true /\
  balance (step s (reveal index)) =
    (if JsArray.some (revealed s) then balance s else balance s - stake s) /\
  stake (step s (reveal index)) = stake s /\
  score (step s (reveal index)) = score s /\
  multiplier (step s (reveal index)) = multiplier s.
Proof.
  intros Hlock Hover Hget Hfund Hruby.
  rewrite (step_reveal_ruby s index) by assumption. simpl. rewrite JsArrayFacts.get_set_same.
  destruct (JsArray.some (revealed s)); repeat split; reflexivity.
Qed.

(** *** Cashing out *)

(** C7: in every state, cashing out yields a balance of the old balance plus
    stake times multiplier and a fresh round: [revealed] all false, score 0,
    the base multiplier, [gameOver], [isPlaying] and [isLockedIn] false, the
    stake and the mine count carried over. *)
Theorem cashOut_fresh_round (s : GameState) (random : nat -> Q) :
  let s' := step s (cashOut random) in
  balance s' = balance s + stake s * multiplier s /\
  revealed s' = JsArray.fill (gridSize GAME_SETTINGS) false /\
  (forall i, JsArray.get (revealed s') i = false) /\
  JsArray.some (revealed s') = false /\
  score s' = 0%nat /\
  multiplier s' = baseMultiplier GAME_SETTINGS /\
  gameOver s' = false /\ isPlaying s' = false /\ isLockedIn s' = false /\
  stake s' = stake s /\ mineCount s' = mineCount s /\
  length (blocks s') = gridSize GAME_SETTINGS.
Proof.
  unfold_step.
  repeat split; try reflexivity.
  intros i. apply (JsArrayFacts.get_fill_false 25).
Qed.

(** C10: the cash-out handler has no guard.  In every state, locked in or not,
    over or not, with or without a revealed cell, it credits stake times
    multiplier and opens a fresh round; in particular after an accepted click
    on a ruby, with [gameOver] set and the stake already forfeited, it still
    credits the stake times the multiplier the round had reached. *)
Theorem cashOut_unguarded (s : GameState) (index : Z) (random : nat -> Q) :
  (balance (step s (cashOut random)) = balance s + stake s * multiplier s /\
   gameOver (step s (cashOut random)) = false /\
   revealed (step s (cashOut random)) = JsArray.fill (gridSize GAME_SETTINGS) false /\
   stake (step s (cashOut random)) = stake s /\
   updates (dispatch calculateMultiplier s (cashOut random)) <> []) /\
  (isLockedIn s = true -> gameOver s = false ->
   JsArray.get (revealed s) index = false ->
   (JsArray.some (revealed s) = false -> stake s <= balance s) ->
   blockAt (blocks s) index = false ->
   balance (step s (cashOut random)) = balance s + stake s * multiplier s /\
   gameOver (step s (reveal index)) = true /\
   balance (step (step s (reveal index)) (cashOut random)) =
     balance (step s (reveal index)) + stake s * multiplier s /\
   gameOver (step (step s (reveal index)) (cashOut random)) = false).
Proof.
  split.
  - repeat split. discriminate.
  - intros Hlock Hover Hget Hfund Hruby.
    destruct (hazard_reveal_ends_round_aux s index Hlock Hover Hget Hfund Hruby)
      as (Hend & Hst & Hmul).
    split; [reflexivity|]. split; [exact Hend|].
    split; [|reflexivity].
    change (balance (step (step s (reveal index)) (cashOut random)))
      with (balance (step s (reveal index)) +
            stake (step s (reveal index)) * multiplier (step s (reveal index))).
    now rewrite Hst, Hmul.
Qed.

(** *** Editing the stake *)

Lemma step_setStake_accepted (s : GameState) (newStake : Q) :
  newStake <= balance s ->
  step s (setStake newStake) = {|
    blocks := blocks s; revealed := revealed s; gameOver := gameOver s;
    score := score s; stake := newStake; multiplier := multiplier s;
    potentialPayout := newStake * multiplier s;
    mineCount := mineCount s; balance := balance s;
    isPlaying := isPlaying s; isLockedIn := isLockedIn s |}.
Proof.
  intros Hle. apply Qle_bool_iff in Hle.
  unfold step, dispatch, handleStakeChange. now rewrite Hle.
Qed.

Lemma step_setStake_rejected (s : GameState) (newStake : Q) :
  balance s < newStake -> step s (setStake newStake) = s.
Proof.
  intros Hlt. apply Qgt_bool_true in Hlt. unfold Qgt_bool in Hlt.
  apply negb_true_iff in Hlt.
  unfold step, dispatch, handleStakeChange. now rewrite Hlt.
Qed.

(** C9: the stake handler checks [newStake <= balance] and nothing else, so
    every such stake, negative ones included, is stored.  With a negative stake
    stored, an accepted first click raises the balance by the absolute value of
    the stake, and a cash-out lowers the balance by the absolute value of stake
    times multiplier. *)
Theorem negative_stake_accepted (s : GameState) (newStake : Q) (index : Z)
    (random : nat -> Q) :
  newStake <= balance s ->
  stake (step s (setStake newStake)) = newStake /\
  (newStake < 0 ->
   (isLockedIn s = true -> gameOver s = false ->
    JsArray.get (revealed s) index = false ->
    JsArray.some (revealed s) = false ->
    balance (step (step s (setStake newStake)) (reveal index))
      == balance s + Qabs newStake) /\
   (0 <= multiplier s ->
    balance (step (step s (setStake newStake)) (cashOut random))
      == balance s - Qabs (newStake * multiplier s))).
Proof.
  intros Hle. rewrite (step_setStake_accepted s newStake Hle).
  split; [reflexivity|]. intros Hneg. split.
  - intros Hlock Hover Hget Hfirst.
    rewrite step_reveal_first by assumption.
    rewrite clickOutcome_balance. simpl.
    rewrite Qabs_neg by (apply Qlt_le_weak; exact Hneg). lra.
  - intros Hmul. unfold_step.
    assert (Hprod : newStake * multiplier s <= 0).
    { setoid_replace (newStake * multiplier s) with (- ((- newStake) * multiplier s))
        by ring.
      assert (0 <= (- newStake) * multiplier s)
        by (apply Qmult_le_0_compat; [lra|assumption]).
      lra. }
    rewrite (Qabs_neg _ Hprod). lra.
Qed.

(** *** Editing the mine count *)

Lemma step_setHazardCount_rejected (s : GameState) (n : Z) (random : nat -> Q) :
  JsArray.some (revealed s) = true -> step s (setHazardCount n random) = s.
Proof.
  intros H. unfold step, dispatch, handleMineCountChange. now rewrite H.
Qed.

Lemma step_setHazardCount_accepted (s : GameState) (n : Z) (random : nat -> Q) :
  JsArray.some (revealed s) = false ->
  step s (setHazardCount n random) = {|
    blocks := drawBlocks (gridSize GAME_SETTINGS) n random;
    revealed := revealed s; gameOver := gameOver s;
    score := score s; stake := stake s; multiplier := multiplier s;
    potentialPayout := potentialPayout s;
    mineCount := n;
    balance := balance s;
    isPlaying := isPlaying s; isLockedIn := isLockedIn s |}.
Proof.
  intros H. unfold step, dispatch, handleMineCountChange. now rewrite H.
Qed.

Lemma clickOutcome_mineCount (g s : GameState) (index : Z) :
  mineCount (clickOutcome g index s) = mineCount s.
Proof. unfold clickOutcome. destruct (blockAt (blocks g) index); reflexivity. Qed.

(** Only the mine-count handler writes [mineCount]. *)
Lemma mineCount_step (s : GameState) (a : action) :
  mineCount (step s a) =
  match a with
  | setHazardCount n _ => if JsArray.some (revealed s) then mineCount s else n
  | _ => mineCount s
  end.
Proof.
  destruct a as [amount|newStake|n random|random| |index|random];
    try reflexivity.
  - unfold step, dispatch, handleStakeChange.
    destruct (Qle_bool newStake (balance s)); reflexivity.
  - unfold step, dispatch, handleMineCountChange.
    destruct (JsArray.some (revealed s)); reflexivity.
  - unfold step, dispatch, handleLockIn.
    destruct (Qle_bool (stake s) (balance s)); reflexivity.
  - destruct (step_reveal_cases s index) as [E|[(_ & _ & E)|(_ & E)]]; rewrite E;
      try rewrite clickOutcome_mineCount; reflexivity.
Qed.

Lemma mineCount_in_range_run (acts : list action) (s : GameState) :
  Forall hazardCountInRange acts ->
  (1 <= mineCount s <= maxMines GAME_SETTINGS)%Z ->
  (1 <= mineCount (run s acts) <= maxMines GAME_SETTINGS)%Z.
Proof.
  revert s. induction acts as [|a acts IH]; intros s Hall Hs; [exact Hs|].
  inversion Hall as [|? ? Ha Hrest]; subst.
  change (1 <= mineCount (run (step s a) acts) <= maxMines GAME_SETTINGS)%Z.
  apply IH; [assumption|].
  rewrite mineCount_step. destruct a; try assumption.
  destruct (JsArray.some (revealed s)); [assumption|exact Ha].
Qed.

(** C8 (amended): the mine-count handler is guarded by [revealed] alone.  With a
    true element in [revealed] it is a no-op; with none it stores [n], whatever
    its value, and re-draws the cells, changing nothing else.  The mine count
    stays within 1 .. [maxMines] along every action sequence whose requested
    counts all lie in that range. *)
Theorem setHazardCount_guarded_by_revealed (s : GameState) (n : Z)
    (random : nat -> Q) (acts : list action) :
  (JsArray.some (revealed s) = true -> step s (setHazardCount n random) = s) /\
  (JsArray.some (revealed s) = false ->
   step s (setHazardCount n random) = {|
     blocks := drawBlocks (gridSize GAME_SETTINGS) n random;
     revealed := revealed s; gameOver := gameOver s;
     score := score s; stake := stake s; multiplier := multiplier s;
     potentialPayout := potentialPayout s;
     mineCount := n;
     balance := balance s;
     isPlaying := isPlaying s; isLockedIn := isLockedIn s |}) /\
  (Forall hazardCountInRange acts ->
   (1 <= mineCount s <= maxMines GAME_SETTINGS)%Z ->
   (1 <= mineCount (run s acts) <= maxMines GAME_SETTINGS)%Z).
Proof.
  split; [apply step_setHazardCount_rejected|].
  split; [apply step_setHazardCount_accepted|].
  apply mineCount_in_range_run.
Qed.

(** *** The balance along action sequences *)

(** The multiplier never drops below the base, as the spec asks of
    [calculateMultiplier]. *)
Definition multiplierAtLeastBase : Prop :=
  forall n, baseMultiplier GAME_SETTINGS <=
            calculateMultiplier (baseMultiplier GAME_SETTINGS)
                                (riskFactor GAME_SETTINGS) n.

Definition solvent (s : GameState) : Prop :=
  0 <= balance s /\ 0 <= stake s /\ 0 <= multiplier s.

Lemma baseMultiplier_positive : 0 < baseMultiplier GAME_SETTINGS.
Proof. reflexivity. Qed.

Lemma solvent_clickOutcome (g s : GameState) (index : Z) :
  multiplierAtLeastBase -> solvent s -> solvent (clickOutcome g index s).
Proof.
  intros Hm (Hb & Hs & Hmul). unfold clickOutcome, solvent.
  destruct (blockAt (blocks g) index); simpl; repeat split; try assumption.
  apply (Qle_trans _ (baseMultiplier GAME_SETTINGS));
    [apply Qlt_le_weak, baseMultiplier_positive | apply Hm].
Qed.

Lemma solvent_step (s : GameState) (a : action) :
  multiplierAtLeastBase -> solvent s -> nonNegativeAmount a ->
  solvent (step s a).
Proof.
  intros Hm Hs Ha. pose proof Hs as (Hb & Hst & Hmul).
  destruct a as [amount|newStake|n random|random| |index|random]; simpl in Ha.
  - unfold_step. unfold solvent; simpl. repeat split; try assumption. lra.
  - unfold step, dispatch, handleStakeChange.
    destruct (Qle_bool newStake (balance s)); [|exact Hs].
    unfold solvent; simpl. auto.
  - unfold step, dispatch, handleMineCountChange.
    destruct (JsArray.some (revealed s)); exact Hs.
  - unfold_step. unfold solvent; simpl. repeat split; try assumption.
    apply Qlt_le_weak, baseMultiplier_positive.
  - unfold step, dispatch, handleLockIn.
    destruct (Qle_bool (stake s) (balance s)); exact Hs.
  - destruct (step_reveal_cases s index) as [E|[(_ & Hle & E)|(_ & E)]]; rewrite E.
    + exact Hs.
    + apply solvent_clickOutcome; [assumption|].
      unfold solvent; simpl. repeat split; try assumption. lra.
    + now apply solvent_clickOutcome.
  - unfold_step. unfold solvent; simpl. repeat split; try assumption.
    + pose proof (Qmult_le_0_compat _ _ Hst Hmul). lra.
    + apply Qlt_le_weak, baseMultiplier_positive.
Qed.

Lemma solvent_run (acts : list action) (s : GameState) :
  multiplierAtLeastBase -> solvent s -> Forall nonNegativeAmount acts ->
  solvent (run s acts).
Proof.
  intros Hm. revert s. induction acts as [|a acts IH]; intros s Hs Hall; [exact Hs|].
  inversion Hall as [|? ? Ha Hrest]; subst.
  change (solvent (run (step s a) acts)).
  apply IH; [|assumption]. now apply solvent_step.
Qed.

(** C1 (amended): from the mounted state with a non-negative saved balance, along
    every sequence of actions in which every deposit amount and every requested
    stake is non-negative, the balance is never negative (the multiplier being
    at least the base multiplier, as the spec requires of it). *)
Theorem balance_never_negative (savedBalance : Q) (random : nat -> Q)
    (acts : list action) :
  multiplierAtLeastBase ->
  0 <= savedBalance ->
  Forall nonNegativeAmount acts ->
  0 <= balance (run (mountState savedBalance random) acts).
Proof.
  intros Hm Hsaved Hall.
  apply (solvent_run acts (mountState savedBalance random)); try assumption.
  unfold solvent, mountState; simpl. repeat split.
  - exact Hsaved.
  - discriminate.
  - apply Qlt_le_weak, baseMultiplier_positive.
Qed.

(** *** The displayed payout *)

Definition payoutConsistent (s : GameState) : Prop :=
  potentialPayout s == stake s * multiplier s.

(** X20: with [calculatePotentialPayout] the product of its arguments, the
    handlers other than new-game and cash-out keep the displayed payout at
    stake times multiplier. *)
Lemma payoutConsistent_step (s : GameState) (a : action) :
  payoutConsistent s ->
  match a with newRound _ | cashOut _ => True | _ => payoutConsistent (step s a) end.
Proof.
  intros Hs. destruct a as [amount|newStake|n random|random| |index|random];
    try exact I.
  - exact Hs.
  - unfold step, dispatch, handleStakeChange.
    destruct (Qle_bool newStake (balance s)); [|exact Hs].
    unfold payoutConsistent, calculatePotentialPayout; simpl. reflexivity.
  - unfold step, dispatch, handleMineCountChange.
    destruct (JsArray.some (revealed s)); exact Hs.
  - unfold step, dispatch, handleLockIn.
    destruct (Qle_bool (stake s) (balance s)); exact Hs.
  - destruct (step_reveal_cases s index) as [E|[(_ & _ & E)|(_ & E)]]; rewrite E;
      try exact Hs;
      unfold clickOutcome; destruct (blockAt (blocks s) index);
      unfold payoutConsistent, calculatePotentialPayout; simpl;
      solve [reflexivity | exact Hs].
Qed.

(** X21: new-game and cash-out copy the stake into a state whose payout field
    is the base multiplier: the field is right only for a stake of one. *)
Lemma payoutConsistent_reset (s : GameState) (random : nat -> Q) :
  potentialPayout (step s (newRound random)) = baseMultiplier GAME_SETTINGS /\
  potentialPayout (step s (cashOut random)) = baseMultiplier GAME_SETTINGS /\
  (payoutConsistent (step s (newRound random)) <-> stake s == 1) /\
  (payoutConsistent (step s (cashOut random)) <-> stake s == 1).
Proof.
  assert (H : baseMultiplier GAME_SETTINGS == stake s * baseMultiplier GAME_SETTINGS
              <-> stake s == 1).
  { pose proof baseMultiplier_positive as Hpos. split; intros E.
    - apply (Qmult_inj_r _ _ (baseMultiplier GAME_SETTINGS)); [lra|].
      rewrite <- E. ring.
    - rewrite E. ring. }
  split; [reflexivity|]. split; [reflexivity|]. split; exact H.
Qed.

End Properties.

(** ** Concrete runs *)

Lemma compoundMultiplier_at_least_base : multiplierAtLeastBase compoundMultiplier.
Proof.
  intros n. induction n as [|n IH]; simpl in *.
  - apply Qle_refl.
  - lra.
Qed.

(** C1, counterexample: from a mounted board with balance 0, entering a stake
    of -5 and cashing out leaves a balance of -6. *)
Lemma balance_negative_after_negative_stake :
  0 <= balance (mountState 0 allGems) /\
  balance (run compoundMultiplier (mountState 0 allGems)
               [setStake (-5); cashOut allGems]) == -6 /\
  balance (run compoundMultiplier (mountState 0 allGems)
               [setStake (-5); cashOut allGems]) < 0.
Proof. vm_compute. repeat split; discriminate. Qed.

Lemma balance_never_negative_witness :
  multiplierAtLeastBase compoundMultiplier /\
  0 <= 10 /\
  Forall nonNegativeAmount sampleSession /\
  0 <= balance (run compoundMultiplier (mountState 10 allGems) sampleSession).
Proof.
  assert (Hm : multiplierAtLeastBase compoundMultiplier)
    by exact compoundMultiplier_at_least_base.
  assert (Hsaved : 0 <= 10) by discriminate.
  assert (Hall : Forall nonNegativeAmount sampleSession)
    by (repeat constructor; simpl; discriminate).
  exact (conj Hm (conj Hsaved (conj Hall
           (balance_never_negative compoundMultiplier 10 allGems sampleSession
              Hm Hsaved Hall)))).
Defined.

(** C2, counterexample: on a locked-in board of 25 cells a click at index 25
    is no no-op: it debits the stake and ends the round. *)
Lemma reveal_out_of_bounds_acts :
  outOfBounds 25 /\
  step compoundMultiplier (lockedBoard allGems) (reveal 25) <> lockedBoard allGems /\
  gameOver (lockedBoard allGems) = false /\
  gameOver (step compoundMultiplier (lockedBoard allGems) (reveal 25)) = true /\
  balance (lockedBoard allGems) == 10 /\
  balance (step compoundMultiplier (lockedBoard allGems) (reveal 25)) == 9.
Proof.
  split; [right; simpl; lia|].
  split; [intros E; apply (f_equal gameOver) in E; vm_compute in E; discriminate|].
  vm_compute. repeat split.
Qed.

Lemma reveal_out_of_bounds_witness :
  length (blocks (lockedBoard allGems)) = gridSize GAME_SETTINGS /\
  outOfBounds (-1) /\
  gameOver (step compoundMultiplier (lockedBoard allGems) (reveal (-1))) = true.
Proof.
  assert (Hlen : length (blocks (lockedBoard allGems)) = gridSize GAME_SETTINGS)
    by reflexivity.
  assert (Hout : outOfBounds (-1)) by (left; lia).
  assert (Hmoved : step compoundMultiplier (lockedBoard allGems) (reveal (-1))
                   <> lockedBoard allGems).
  { intros E. apply (f_equal gameOver) in E. vm_compute in E. discriminate. }
  exact (conj Hlen (conj Hout
           (proj2 (reveal_out_of_bounds compoundMultiplier (lockedBoard allGems)
                     (-1) Hlen Hout) Hmoved))).
Defined.

(** C3: on a board with a cell revealed (balance 9, stake 1) a stake edit to 5
    is stored, where the claim has the edit rejected.  The handler tests
    [newStake <= balance] only; the mine-count handler next to it tests
    [revealed.some(Boolean)], and the render marks the controls disabled. *)
Theorem stake_edit_after_reveal_stored :
  JsArray.some (revealed playingBoard) = true /\
  controlsDisabled playingBoard = true /\
  stake playingBoard == 1 /\
  stake (step compoundMultiplier playingBoard (setStake 5)) == 5 /\
  step compoundMultiplier playingBoard (setStake 5) <> playingBoard /\
  step compoundMultiplier playingBoard (setHazardCount 3 allGems) = playingBoard.
Proof.
  repeat split; try reflexivity.
  intros E. apply (f_equal stake) in E. vm_compute in E. discriminate.
Qed.

(** C4: with a stake of 2 entered, the payout field is stake times multiplier;
    after new-game, and after cash-out, the stake is still 2 and the multiplier
    1.2, but the payout field is 1.2, not 2.4. *)
Theorem payout_stale_after_reset :
  payoutConsistent stakedBoard /\
  stake (step compoundMultiplier stakedBoard (newRound allGems)) == 2 /\
  multiplier (step compoundMultiplier stakedBoard (newRound allGems)) == 1.2 /\
  potentialPayout (step compoundMultiplier stakedBoard (newRound allGems)) == 1.2 /\
  ~ payoutConsistent (step compoundMultiplier stakedBoard (newRound allGems)) /\
  potentialPayout (step compoundMultiplier stakedBoard (cashOut allGems)) == 1.2 /\
  ~ payoutConsistent (step compoundMultiplier stakedBoard (cashOut allGems)).
Proof.
  vm_compute. repeat split; discriminate.
Qed.

Lemma first_reveal_debits_once_witness :
  JsArray.some (revealed (lockedBoard allGems)) = false /\
  isLockedIn (lockedBoard allGems) = true /\
  gameOver (lockedBoard allGems) = false /\
  JsArray.get (revealed (lockedBoard allGems)) 0 = false /\
  stake (lockedBoard allGems) <= balance (lockedBoard allGems) /\
  balance (step compoundMultiplier (lockedBoard allGems) (reveal 0))
    = balance (lockedBoard allGems) - stake (lockedBoard allGems) /\
  balance (run compoundMultiplier
             (step compoundMultiplier (lockedBoard allGems) (reveal 0))
             (map reveal [1; 2; 0; 30]%Z))
    = balance (lockedBoard allGems) - stake (lockedBoard allGems) /\
  balance (step compoundMultiplier
             (run compoundMultiplier
                (step compoundMultiplier (lockedBoard allGems) (reveal 0))
                [deposit 3; lockIn; setStake 2; reveal 1; lockIn])
             (reveal 2))
    = balance (run compoundMultiplier
                 (step compoundMultiplier (lockedBoard allGems) (reveal 0))
                 [deposit 3; lockIn; setStake 2; reveal 1; lockIn]) /\
  balance (run compoundMultiplier
             (step compoundMultiplier (lockedBoard allGems) (reveal 0))
             [lockIn; reveal 1; setStake 2; lockIn; reveal 2])
    = balance (lockedBoard allGems) - stake (lockedBoard allGems).
Proof.
  assert (Hfund : stake (lockedBoard allGems) <= balance (lockedBoard allGems))
    by (vm_compute; discriminate).
  destruct (first_reveal_debits_once compoundMultiplier (lockedBoard allGems) 0
              [1; 2; 0; 30]%Z eq_refl eq_refl eq_refl eq_refl) as (_ & Hacc).
  destruct (Hacc Hfund) as (_ & _ & _ & Hbal & _ & Hrun & Hclick & Hround).
  exact (conj eq_refl (conj eq_refl (conj eq_refl (conj eq_refl
           (conj Hfund (conj Hbal (conj Hrun
              (conj (Hclick [deposit 3; lockIn; setStake 2; reveal 1; lockIn] 2%Z
                            eq_refl)
                    (Hround [lockIn; reveal 1; setStake 2; lockIn; reveal 2]
                            eq_refl))))))))).
Defined.

Lemma hazard_reveal_ends_round_witness :
  isLockedIn (lockedBoard allRubies) = true /\
  gameOver (lockedBoard allRubies) = false /\
  JsArray.get (revealed (lockedBoard allRubies)) 3 = false /\
  stake (lockedBoard allRubies) <= balance (lockedBoard allRubies) /\
  blockAt (blocks (lockedBoard allRubies)) 3 = false /\
  gameOver (step compoundMultiplier (lockedBoard allRubies) (reveal 3)) = true /\
  isPlaying (step compoundMultiplier (lockedBoard allRubies) (reveal 3)) = false.
Proof.
  assert (Hfund : stake (lockedBoard allRubies) <= balance (lockedBoard allRubies))
    by (vm_compute; discriminate).
  destruct (hazard_reveal_ends_round compoundMultiplier (lockedBoard allRubies) 3
              eq_refl eq_refl eq_refl (fun _ => Hfund) eq_refl)
    as (Hover & Hplay & _).
  exact (conj eq_refl (conj eq_refl (conj eq_refl (conj Hfund
           (conj eq_refl (conj Hover Hplay)))))).
Defined.

(** C8, counterexample: on the mounted board, with no cell revealed, a request
    for 20 mines is stored although [maxMines] is 15. *)
Lemma setHazardCount_beyond_max_stored :
  JsArray.some (revealed (mountState 10 allGems)) = false /\
  mineCount (step compoundMultiplier (mountState 10 allGems)
                  (setHazardCount 20 allGems)) = 20%Z /\
  step compoundMultiplier (mountState 10 allGems) (setHazardCount 20 allGems)
    <> mountState 10 allGems /\
  ~ (1 <= 20 <= maxMines GAME_SETTINGS)%Z.
Proof.
  repeat split; try reflexivity.
  - intros E. apply (f_equal mineCount) in E. vm_compute in E. discriminate.
  - simpl. lia.
Qed.

Lemma setHazardCount_guarded_by_revealed_witness :
  JsArray.some (revealed playingBoard) = true /\
  Forall hazardCountInRange sampleSession /\
  (1 <= mineCount playingBoard <= maxMines GAME_SETTINGS)%Z /\
  step compoundMultiplier playingBoard (setHazardCount 3 allRubies) = playingBoard /\
  (1 <= mineCount (run compoundMultiplier playingBoard sampleSession)
     <= maxMines GAME_SETTINGS)%Z.
Proof.
  assert (Hall : Forall hazardCountInRange sampleSession)
    by (repeat constructor; simpl; lia).
  assert (Hrange : (1 <= mineCount playingBoard <= maxMines GAME_SETTINGS)%Z)
    by (simpl; lia).
  destruct (setHazardCount_guarded_by_revealed compoundMultiplier playingBoard 3
              allRubies sampleSession) as (Hrej & _ & Hinv).
  exact (conj eq_refl (conj Hall (conj Hrange
           (conj (Hrej eq_refl) (Hinv Hall Hrange))))).
Defined.

Lemma negative_stake_accepted_witness :
  -5 <= balance (lockedBoard allGems) /\
  stake (step compoundMultiplier (lockedBoard allGems) (setStake (-5))) = -5 /\
  0 <= multiplier (lockedBoard allGems) /\
  balance (step compoundMultiplier
             (step compoundMultiplier (lockedBoard allGems) (setStake (-5)))
             (reveal 0))
    == balance (lockedBoard allGems) + Qabs (-5) /\
  balance (step compoundMultiplier
             (step compoundMultiplier (lockedBoard allGems) (setStake (-5)))
             (cashOut allGems))
    == balance (lockedBoard allGems) - Qabs (-5 * multiplier (lockedBoard allGems)).
Proof.
  assert (Hle : -5 <= balance (lockedBoard allGems)) by (vm_compute; discriminate).
  assert (Hmul : 0 <= multiplier (lockedBoard allGems)) by (vm_compute; discriminate).
  destruct (negative_stake_accepted compoundMultiplier (lockedBoard allGems) (-5) 0
              allGems Hle) as (Hst & Hneg).
  destruct (Hneg eq_refl) as (Hclick & Hcash).
  exact (conj Hle (conj Hst (conj Hmul
           (conj (Hclick eq_refl eq_refl eq_refl eq_refl) (Hcash Hmul))))).
Defined.

Lemma cashOut_unguarded_witness :
  isLockedIn (lockedBoard allRubies) = true /\
  gameOver (lockedBoard allRubies) = false /\
  JsArray.get (revealed (lockedBoard allRubies)) 3 = false /\
  stake (lockedBoard allRubies) <= balance (lockedBoard allRubies) /\
  blockAt (blocks (lockedBoard allRubies)) 3 = false /\
  gameOver (step compoundMultiplier (lockedBoard allRubies) (reveal 3)) = true /\
  balance (step compoundMultiplier
             (step compoundMultiplier (lockedBoard allRubies) (reveal 3))
             (cashOut allGems))
    = balance (step compoundMultiplier (lockedBoard allRubies) (reveal 3))
      + stake (lockedBoard allRubies) * multiplier (lockedBoard allRubies) /\
  balance (step compoundMultiplier (mountState 0 allGems) (cashOut allGems))
    = balance (mountState 0 allGems)
      + stake (mountState 0 allGems) * multiplier (mountState 0 allGems).
Proof.
  assert (Hfund : stake (lockedBoard allRubies) <= balance (lockedBoard allRubies))
    by (vm_compute; discriminate).
  destruct (proj2 (cashOut_unguarded compoundMultiplier (lockedBoard allRubies) 3
                     allGems)
              eq_refl eq_refl eq_refl (fun _ => Hfund) eq_refl)
    as (_ & Hover & Hbal & _).
  exact (conj eq_refl (conj eq_refl (conj eq_refl (conj Hfund
           (conj eq_refl (conj Hover (conj Hbal
              (proj1 (proj1 (cashOut_unguarded compoundMultiplier
                               (mountState 0 allGems) 0 allGems)))))))))).
Defined.

(** ** Further properties: the board along whole sessions *)

Module JsArrayMore.
Import JsArray.

Lemma nth_write_other (l : list bool) (n m : nat) (v : bool) :
  n <> m -> nth m (write l n v) false = nth m l false.
Proof.
  revert l m; induction n as [|n IH]; intros [|x l] [|m] Hne; simpl;
    try reflexivity; try congruence.
  - now destruct m.
  - rewrite IH by congruence. now destruct m.
  - apply IH. congruence.
Qed.

Lemma write_length_inside (l : list bool) (n : nat) (v : bool) :
  (n < length l)%nat -> length (write l n v) = length l.
Proof.
  revert l; induction n as [|n IH]; intros [|x l] Hlt; simpl in *; try lia.
  rewrite IH; lia.
Qed.

Lemma write_length_grows (l : list bool) (n : nat) (v : bool) :
  (length l <= length (write l n v))%nat.
Proof.
  revert l; induction n as [|n IH]; intros [|x l]; simpl; try lia.
  specialize (IH l). lia.
Qed.

Lemma write_length_outside (l : list bool) (n : nat) (v : bool) :
  (length l <= n)%nat -> length (write l n v) = S n.
Proof.
  revert l; induction n as [|n IH]; intros [|x l] Hle; simpl in *; try lia.
  - f_equal. apply (IH []). simpl. lia.
  - f_equal. apply IH. lia.
Qed.

Lemma count_write_true (l : list bool) (n : nat) :
  nth n l false = false ->
  length (filter (fun b => b) (write l n true)) =
  S (length (filter (fun b => b) l)).
Proof.
  revert l; induction n as [|n IH]; intros [|x l] Hn; simpl in *.
  - reflexivity.
  - now subst x.
  - apply (IH []). now destruct n.
  - destruct x; simpl; rewrite IH by assumption; reflexivity.
Qed.

Lemma existsb_count (l : list bool) :
  Nat.ltb 0 (length (filter (fun b => b) l)) = existsb (fun b => b) l.
Proof.
  induction l as [|x l IH]; simpl; [reflexivity|]. destruct x; simpl; auto.
Qed.

Lemma existsb_false_nth (l : list bool) (n : nat) :
  existsb (fun b => b) l = false -> nth n l false = false.
Proof.
  revert n; induction l as [|x l IH]; intros [|n] H; simpl in *; try reflexivity.
  - now destruct x.
  - apply IH. now destruct x.
Qed.

Lemma get_set_other (a : t) (i j : Z) (v : bool) :
  (0 <= j)%Z -> i <> j -> get (set (spread a) i v) j = get a j.
Proof.
  intros Hj Hne. unfold get, set, spread.
  destruct (Z.ltb_spec j 0) as [|_]; [lia|].
  destruct (Z.ltb_spec i 0) as [Hi|Hi]; simpl; [reflexivity|].
  apply nth_write_other. lia.
Qed.


End JsArrayMore.

Lemma gemsFound_none (shown cells : list bool) :
  existsb (fun b => b) shown = false -> gemsFound shown cells = 0%nat.
Proof.
  revert cells; induction shown as [|r shown IH]; intros [|c cells] H;
    simpl in *; try reflexivity.
  destruct r; [discriminate|]. simpl. now apply IH.
Qed.

Lemma gemsFound_repeat_false (n : nat) (cells : list bool) :
  gemsFound (repeat false n) cells = 0%nat.
Proof.
  revert cells; induction n as [|n IH]; intros [|c cells]; simpl; auto.
Qed.

Lemma gemsFound_write_gem (shown cells : list bool) (n : nat) :
  nth n shown false = false -> nth n cells false = true ->
  gemsFound (JsArray.write shown n true) cells = S (gemsFound shown cells).
Proof.
  revert shown cells; induction n as [|n IH]; intros [|r shown] [|c cells] Hr Hc;
    simpl in *; try discriminate.
  - now subst c.
  - subst r c. reflexivity.
  - rewrite (IH [] cells) by (try assumption; now destruct n).
    now destruct cells.
  - rewrite IH by assumption. lia.
Qed.

Lemma gemsFound_write_ruby (shown cells : list bool) (n : nat) :
  nth n cells false = false ->
  gemsFound (JsArray.write shown n true) cells = gemsFound shown cells.
Proof.
  revert shown cells; induction n as [|n IH]; intros [|r shown] [|c cells] Hc;
    simpl in *; try reflexivity.
  - now subst c.
  - subst c. now rewrite !andb_false_r.
  - rewrite (IH [] cells) by assumption. now destruct cells.
  - now rewrite IH.
Qed.

Lemma gemsFound_le_count (shown cells : list bool) :
  (gemsFound shown cells <= length (filter (fun b => b) shown))%nat.
Proof.
  revert cells; induction shown as [|r shown IH]; intros [|c cells]; simpl; try lia.
  specialize (IH cells). destruct r, c; simpl; lia.
Qed.

(** Case analysis on an action, one goal per handler branch; the click is left
    to the lemmas on [reveal]. *)
Ltac split_action s a :=
  destruct a as [?amount|?newStake|?n ?random|?random| |?index|?random];
  [ unfold step, dispatch, handleDeposit, commit; simpl
  | unfold step, dispatch, handleStakeChange, commit;
    destruct (Qle_bool _ (balance s)) eqn:?Hguard; simpl
  | unfold step, dispatch, handleMineCountChange, commit;
    destruct (JsArray.some (revealed s)) eqn:?Hguard; simpl
  | unfold step, dispatch, handleNewGame, commit; simpl
  | unfold step, dispatch, handleLockIn, commit;
    destruct (Qle_bool (stake s) (balance s)) eqn:?Hguard; simpl
  | idtac
  | unfold step, dispatch, handleCashout, commit; simpl ].

Section Sessions.

Variable calculateMultiplier : Q -> Q -> nat -> Q.

Local Abbreviation step := (step calculateMultiplier).
Local Abbreviation run := (run calculateMultiplier).
Local Abbreviation dispatch := (dispatch calculateMultiplier).
Local Abbreviation clickOutcome := (clickOutcome calculateMultiplier).

Lemma run_cons (s : GameState) (a : action) (acts : list action) :
  run s (a :: acts) = run (step s a) acts.
Proof. reflexivity. Qed.

Lemma run_app (s : GameState) (acts more : list action) :
  run s (acts ++ more) = run (run s acts) more.
Proof. apply fold_left_app. Qed.

(** A property kept by every admissible action holds along every session. *)
Lemma run_invariant (P : GameState -> Prop) (ok : action -> Prop) :
  (forall s a, P s -> ok a -> P (step s a)) ->
  forall acts s, P s -> Forall ok acts -> P (run s acts).
Proof.
  intros Hstep acts. induction acts as [|a acts IH]; intros s Hs Hall; [exact Hs|].
  inversion Hall as [|? ? Ha Hrest]; subst.
  rewrite run_cons. apply IH; auto.
Qed.

Lemma run_invariant_all (P : GameState -> Prop) :
  (forall s a, P s -> P (step s a)) ->
  forall acts s, P s -> P (run s acts).
Proof.
  intros Hstep acts s Hs.
  apply (run_invariant P (fun _ => True)); auto.
  apply Forall_forall. auto.
Qed.

(** A click either changes nothing or passed every guard of the handler. *)
Lemma step_reveal_inv (s : GameState) (index : Z) :
  step s (reveal index) = s \/
  (JsArray.get (revealed s) index = false /\ gameOver s = false /\
   isLockedIn s = true /\
   (JsArray.some (revealed s) = false -> stake s <= balance s) /\
   step s (reveal index) =
     clickOutcome s index
       (if JsArray.some (revealed s) then s else debitStake s)).
Proof.
  destruct (JsArray.get (revealed s) index) eqn:Hget;
    [left; apply step_reveal_rejected; auto|].
  destruct (gameOver s) eqn:Hover; [left; apply step_reveal_rejected; auto|].
  destruct (isLockedIn s) eqn:Hlock; [|left; apply step_reveal_rejected; auto].
  destruct (JsArray.some (revealed s)) eqn:Hsome.
  - right. repeat split; try discriminate. now apply step_reveal_later.
  - destruct (Qlt_le_dec (balance s) (stake s)) as [Hlt|Hle].
    + left. now apply step_reveal_unfunded.
    + right. repeat split; auto. now apply step_reveal_first.
Qed.

Lemma clickOutcome_blocks (g s : GameState) (index : Z) :
  blocks (clickOutcome g index s) = blocks s.
Proof. unfold clickOutcome. destruct (blockAt (blocks g) index); reflexivity. Qed.

Lemma clickOutcome_isLockedIn (g s : GameState) (index : Z) :
  isLockedIn (clickOutcome g index s) = isLockedIn s.
Proof. unfold clickOutcome. destruct (blockAt (blocks g) index); reflexivity. Qed.

Lemma clickOutcome_score (g s : GameState) (index : Z) :
  score (clickOutcome g index s) =
  if blockAt (blocks g) index then (score g + 1)%nat else score s.
Proof. unfold clickOutcome. destruct (blockAt (blocks g) index); reflexivity. Qed.

Lemma clickOutcome_multiplier (g s : GameState) (index : Z) :
  multiplier (clickOutcome g index s) =
  if blockAt (blocks g) index
  then calculateMultiplier (baseMultiplier GAME_SETTINGS) (riskFactor GAME_SETTINGS)
                           (score g + 1)%nat
  else multiplier s.
Proof. unfold clickOutcome. destruct (blockAt (blocks g) index); reflexivity. Qed.

Lemma clickOutcome_isPlaying (g s : GameState) (index : Z) :
  isPlaying (clickOutcome g index s) =
  isPlaying s && blockAt (blocks g) index.
Proof.
  unfold clickOutcome. destruct (blockAt (blocks g) index); simpl;
    [now rewrite andb_true_r | now rewrite andb_false_r].
Qed.

Lemma blockAt_gem (cells : list bool) (index : Z) :
  blockAt cells index = true ->
  (0 <= index)%Z /\ nth (Z.to_nat index) cells false = true.
Proof.
  unfold blockAt. destruct (Z.ltb_spec index 0); [discriminate|]. auto.
Qed.

Lemma blockAt_ruby (cells : list bool) (index : Z) :
  (0 <= index)%Z -> blockAt cells index = false ->
  nth (Z.to_nat index) cells false = false.
Proof.
  unfold blockAt. destruct (Z.ltb_spec index 0); [lia|]. auto.
Qed.

(** The elements of [revealed] after the write of an accepted click. *)
Lemma items_after_click (a : JsArray.t) (index : Z) :
  JsArray.items (JsArray.set (JsArray.spread a) index true) =
  if Z.ltb index 0 then JsArray.items a
  else JsArray.write (JsArray.items a) (Z.to_nat index) true.
Proof. unfold JsArray.set, JsArray.spread. now destruct (Z.ltb index 0). Qed.

(** *** Deposits *)

(** Every field but the balance agrees. *)
Definition sameRound (s s' : GameState) : Prop :=
  blocks s' = blocks s /\ revealed s' = revealed s /\ gameOver s' = gameOver s /\
  score s' = score s /\ stake s' = stake s /\ multiplier s' = multiplier s /\
  potentialPayout s' = potentialPayout s /\ mineCount s' = mineCount s /\
  isPlaying s' = isPlaying s /\ isLockedIn s' = isLockedIn s.

(** X1: the deposit handler has no guard and touches the balance only: after any
    run of deposits, of either sign, every other field is as before and the
    balance is the old balance with the amounts added to it one at a time, in
    the order of the deposits. *)
Theorem deposits_credit_in_order (s : GameState) (amounts : list Q) :
  sameRound s (run s (map deposit amounts)) /\
  balance (run s (map deposit amounts)) = creditEach (balance s) amounts.
Proof.
  revert s. induction amounts as [|amount amounts IH]; intros s.
  - split; [repeat split|reflexivity].
  - simpl map. rewrite run_cons.
    destruct (IH (step s (deposit amount))) as (Hsame & Hbal).
    split.
    + unfold sameRound in *. exact Hsame.
    + rewrite Hbal. reflexivity.
Qed.

(** *** Lock-in *)

(** X2: [isLockedIn] is written by three handlers only: new-game and cash-out
    clear it, lock-in sets it when the stake is covered by the balance.  So a
    lock-in lasts through every sequence of other actions. *)
Theorem lock_in_lasts_until_reset (s : GameState) (a : action) (acts : list action) :
  isLockedIn (step s a) =
    match a with
    | newRound _ | cashOut _ => false
    | lockIn => isLockedIn s || Qle_bool (stake s) (balance s)
    | _ => isLockedIn s
    end /\
  (isLockedIn s = true ->
   forallb (fun b => negb (startsRound b)) acts = true ->
   isLockedIn (run s acts) = true).
Proof.
  assert (Hone : forall t b,
    isLockedIn (step t b) =
    match b with
    | newRound _ | cashOut _ => false
    | lockIn => isLockedIn t || Qle_bool (stake t) (balance t)
    | _ => isLockedIn t
    end).
  { intros t b. split_action t b; try reflexivity.
    - apply eq_sym, orb_true_r.
    - apply eq_sym, orb_false_r.
    - destruct (step_reveal_inv t index) as [E|(_ & _ & _ & _ & E)]; rewrite E;
        [reflexivity|].
      rewrite clickOutcome_isLockedIn.
      now destruct (JsArray.some (revealed t)). }
  split; [apply Hone|].
  revert s. induction acts as [|b acts IH]; intros s Hs Hall; [exact Hs|].
  simpl in Hall. apply andb_true_iff in Hall. destruct Hall as (Hb & Hall).
  rewrite run_cons. apply IH; [|exact Hall].
  rewrite Hone. destruct b; simpl in Hb; try discriminate; try assumption.
  now rewrite Hs.
Qed.

Definition nonNegativeDeposit (a : action) : Prop :=
  match a with
  | deposit amount => 0 <= amount
  | _ => True
  end.

(** While a round is locked in and untouched, the stake is within the balance. *)
Definition stakeCovered (s : GameState) : Prop :=
  isLockedIn s = true -> JsArray.some (revealed s) = false ->
  gameOver s = false -> stake s <= balance s.

Lemma stakeCovered_step (s : GameState) (a : action) :
  stakeCovered s -> nonNegativeDeposit a -> stakeCovered (step s a).
Proof.
  intros Hs Ha. split_action s a; unfold stakeCovered in *; simpl in *;
    try assumption; try (intros; discriminate).
  - intros Hl Hr Ho. specialize (Hs Hl Hr Ho). lra.
  - intros _ _ _. now apply Qle_bool_iff.
  - intros _ _ _. now apply Qle_bool_iff.
  - destruct (step_reveal_inv s index) as [E|(_ & _ & _ & _ & E)]; rewrite E;
      [assumption|].
    intros _ Hr Ho.
    destruct (debited_after_click calculateMultiplier s
                (if JsArray.some (revealed s) then s else debitStake s) index)
      as [H|H]; congruence.
Qed.

(** X3: along every session from the mounted state whose deposits are
    non-negative, a locked-in round with no cell revealed has its stake within
    the balance; the funding check of the first click therefore never rejects,
    and the first click on an unrevealed cell debits the stake. *)
Theorem locked_stake_always_covered (savedBalance : Q) (random : nat -> Q)
    (acts : list action) (index : Z) :
  Forall nonNegativeDeposit acts ->
  isLockedIn (run (mountState savedBalance random) acts) = true ->
  JsArray.some (revealed (run (mountState savedBalance random) acts)) = false ->
  gameOver (run (mountState savedBalance random) acts) = false ->
  JsArray.get (revealed (run (mountState savedBalance random) acts)) index = false ->
  stake (run (mountState savedBalance random) acts)
    <= balance (run (mountState savedBalance random) acts) /\
  balance (step (run (mountState savedBalance random) acts) (reveal index)) =
    balance (run (mountState savedBalance random) acts)
    - stake (run (mountState savedBalance random) acts).
Proof.
  intros Hall. set (s' := run (mountState savedBalance random) acts).
  intros Hl Hr Ho Hget.
  assert (Hcov : stakeCovered s').
  { apply (run_invariant stakeCovered nonNegativeDeposit); auto.
    - intros s a. apply stakeCovered_step.
    - intros H. discriminate H. }
  specialize (Hcov Hl Hr Ho). split; [exact Hcov|].
  rewrite step_reveal_first by assumption.
  now rewrite clickOutcome_balance.
Qed.

(** *** Score, multiplier and the playing flag *)

Definition scoreCounts (s : GameState) : Prop :=
  score s = gemsFound (JsArray.items (revealed s)) (blocks s).

Lemma scoreCounts_step (s : GameState) (a : action) :
  scoreCounts s -> scoreCounts (step s a).
Proof.
  intros Hs. split_action s a; unfold scoreCounts in *; simpl; try assumption;
    try reflexivity.
  - rewrite gemsFound_none by assumption.
    rewrite Hs. now apply gemsFound_none.
  - destruct (step_reveal_inv s index) as [E|(Hget & _ & _ & _ & E)]; rewrite E;
      [assumption|].
    rewrite clickOutcome_score, clickOutcome_revealed, clickOutcome_blocks,
      items_after_click.
    assert (Hb : blocks (if JsArray.some (revealed s) then s else debitStake s)
                 = blocks s) by now destruct (JsArray.some (revealed s)).
    assert (Hsc : score (if JsArray.some (revealed s) then s else debitStake s)
                  = score s) by now destruct (JsArray.some (revealed s)).
    rewrite Hb, Hsc.
    destruct (blockAt (blocks s) index) eqn:Hcell.
    + apply blockAt_gem in Hcell. destruct Hcell as (Hpos & Hgem).
      unfold JsArray.get in Hget.
      destruct (Z.ltb_spec index 0) as [|_]; [lia|].
      rewrite gemsFound_write_gem by assumption. lia.
    + destruct (Z.ltb_spec index 0) as [|Hpos]; [assumption|].
      rewrite gemsFound_write_ruby by (now apply blockAt_ruby). assumption.
Qed.

(** X4: along every session from the mounted state the score is the number of
    cells that are revealed and hold a gem, and so never exceeds the number of
    revealed cells the render counts. *)
Theorem score_counts_revealed_gems (savedBalance : Q) (random : nat -> Q)
    (acts : list action) :
  score (run (mountState savedBalance random) acts) =
    gemsFound (JsArray.items (revealed (run (mountState savedBalance random) acts)))
              (blocks (run (mountState savedBalance random) acts)) /\
  (score (run (mountState savedBalance random) acts)
     <= revealedCount (run (mountState savedBalance random) acts))%nat.
Proof.
  assert (H : scoreCounts (run (mountState savedBalance random) acts)).
  { apply run_invariant_all; [apply scoreCounts_step|]. reflexivity. }
  split; [exact H|]. rewrite H. apply gemsFound_le_count.
Qed.

Definition multiplierTracksScore (s : GameState) : Prop :=
  multiplier s =
  if Nat.eqb (score s) 0 then baseMultiplier GAME_SETTINGS
  else calculateMultiplier (baseMultiplier GAME_SETTINGS) (riskFactor GAME_SETTINGS)
                           (score s).

Lemma multiplierTracksScore_step (s : GameState) (a : action) :
  multiplierTracksScore s -> multiplierTracksScore (step s a).
Proof.
  intros Hs. split_action s a; unfold multiplierTracksScore in *; simpl;
    try assumption; try reflexivity.
  destruct (step_reveal_inv s index) as [E|(_ & _ & _ & _ & E)]; rewrite E;
    [assumption|].
  rewrite clickOutcome_score, clickOutcome_multiplier.
  destruct (blockAt (blocks s) index).
  - replace (Nat.eqb (score s + 1) 0) with false; [reflexivity|].
    symmetry. apply Nat.eqb_neq. lia.
  - now destruct (JsArray.some (revealed s)).
Qed.

(** X5: along every session from the mounted state the multiplier is the base
    multiplier while the score is 0 and [calculateMultiplier] of the score
    afterwards. *)
Theorem multiplier_tracks_score (savedBalance : Q) (random : nat -> Q)
    (acts : list action) :
  multiplier (run (mountState savedBalance random) acts) =
  if Nat.eqb (score (run (mountState savedBalance random) acts)) 0
  then baseMultiplier GAME_SETTINGS
  else calculateMultiplier (baseMultiplier GAME_SETTINGS) (riskFactor GAME_SETTINGS)
         (score (run (mountState savedBalance random) acts)).
Proof.
  apply (run_invariant_all multiplierTracksScore);
    [apply multiplierTracksScore_step|reflexivity].
Qed.

Definition playingFlag (s : GameState) : Prop :=
  isPlaying s = JsArray.some (revealed s) && negb (gameOver s).

Lemma playingFlag_step (s : GameState) (a : action) :
  playingFlag s -> playingFlag (step s a).
Proof.
  intros Hs. split_action s a; unfold playingFlag in *; simpl;
    try assumption; try reflexivity.
  destruct (step_reveal_inv s index) as [E|(_ & Hover & _ & _ & E)]; rewrite E;
    [assumption|].
  rewrite clickOutcome_isPlaying, clickOutcome_revealed, clickOutcome_gameOver.
  assert (Hplay : isPlaying (if JsArray.some (revealed s) then s else debitStake s)
                  = true).
  { destruct (JsArray.some (revealed s)) eqn:Hsome; [|reflexivity].
    rewrite Hs, Hover. reflexivity. }
  assert (Hov : gameOver (if JsArray.some (revealed s) then s else debitStake s)
                = false) by now destruct (JsArray.some (revealed s)).
  rewrite Hplay, Hov. simpl.
  destruct (blockAt (blocks s) index) eqn:Hcell; simpl.
  - apply blockAt_gem in Hcell. destruct Hcell as (Hpos & _).
    now rewrite JsArrayFacts.some_set_true.
  - now rewrite andb_false_r.
Qed.

(** X6: along every session from the mounted state [isPlaying] holds exactly
    when a cell is revealed and the round is not over. *)
Theorem playing_iff_revealed_and_live (savedBalance : Q) (random : nat -> Q)
    (acts : list action) :
  isPlaying (run (mountState savedBalance random) acts) =
  JsArray.some (revealed (run (mountState savedBalance random) acts))
  && negb (gameOver (run (mountState savedBalance random) acts)).
Proof.
  apply (run_invariant_all playingFlag); [apply playingFlag_step|reflexivity].
Qed.

(** *** What a round keeps *)



Lemma frozen_step (s : GameState) (a : action) :
  gameOver s = true -> startsRound a = false ->
  gameOver (step s a) = true /\ revealed (step s a) = revealed s /\
  score (step s a) = score s /\ multiplier (step s a) = multiplier s /\
  isPlaying (step s a) = isPlaying s.
Proof.
  intros Hover Ha. split_action s a; try discriminate; auto.
  rewrite step_reveal_rejected by auto. auto.
Qed.

(** X8: once the round is over, no sequence of actions other than new-game and
    cash-out changes [gameOver], [revealed], the score, the multiplier or
    [isPlaying]; every click in it is a no-op. *)
Theorem round_frozen_after_game_over (s : GameState) (acts : list action)
    (index : Z) :
  gameOver s = true ->
  forallb (fun a => negb (startsRound a)) acts = true ->
  gameOver (run s acts) = true /\ revealed (run s acts) = revealed s /\
  score (run s acts) = score s /\ multiplier (run s acts) = multiplier s /\
  isPlaying (run s acts) = isPlaying s /\
  step (run s acts) (reveal index) = run s acts.
Proof.
  intros Hover Hall.
  assert (H : gameOver (run s acts) = true /\ revealed (run s acts) = revealed s /\
              score (run s acts) = score s /\ multiplier (run s acts) = multiplier s /\
              isPlaying (run s acts) = isPlaying s).
  { revert s Hover Hall. induction acts as [|a acts IH]; intros s Hover Hall;
      [auto|].
    simpl in Hall. apply andb_true_iff in Hall. destruct Hall as (Ha & Hall).
    apply negb_true_iff in Ha.
    destruct (frozen_step s a Hover Ha) as (H1 & H2 & H3 & H4 & H5).
    rewrite run_cons.
    destruct (IH (step s a) H1 Hall) as (K1 & K2 & K3 & K4 & K5).
    repeat split; congruence. }
  destruct H as (H1 & H2 & H3 & H4 & H5). repeat split; try assumption.
  apply step_reveal_rejected. auto.
Qed.

Definition gridShaped (s : GameState) : Prop :=
  length (blocks s) = gridSize GAME_SETTINGS /\
  (gridSize GAME_SETTINGS <= length (JsArray.items (revealed s)))%nat.

Definition gridExact (s : GameState) : Prop :=
  length (blocks s) = gridSize GAME_SETTINGS /\
  length (JsArray.items (revealed s)) = gridSize GAME_SETTINGS.

Lemma gridShaped_step (s : GameState) (a : action) :
  gridShaped s -> gridShaped (step s a).
Proof.
  intros Hs. pose proof Hs as (Hb & Hr).
  split_action s a; try assumption; unfold gridShaped; simpl;
    try (split; [reflexivity|lia]); try (split; [reflexivity|assumption]).
  destruct (step_reveal_inv s index) as [E|(_ & _ & _ & _ & E)]; rewrite E;
    [assumption|].
  rewrite clickOutcome_blocks, clickOutcome_revealed, items_after_click.
  split; [now destruct (JsArray.some (revealed s))|].
  destruct (Z.ltb index 0); [assumption|].
  pose proof (JsArrayMore.write_length_grows (JsArray.items (revealed s))
                (Z.to_nat index) true).
  simpl in Hr. lia.
Qed.

Lemma gridExact_step (s : GameState) (a : action) :
  gridExact s -> clickInGrid a -> gridExact (step s a).
Proof.
  intros Hs Ha. pose proof Hs as (Hb & Hr).
  split_action s a; try assumption; unfold gridExact; simpl;
    try (split; reflexivity); try (split; [reflexivity|assumption]).
  destruct (step_reveal_inv s index) as [E|(_ & _ & _ & _ & E)]; rewrite E;
    [assumption|].
  rewrite clickOutcome_blocks, clickOutcome_revealed, items_after_click.
  split; [now destruct (JsArray.some (revealed s))|].
  simpl in Ha. destruct (Z.ltb_spec index 0) as [|_]; [lia|].
  rewrite JsArrayMore.write_length_inside; [assumption|]. rewrite Hr.
  simpl in *. lia.
Qed.

(** X9: along every session from the mounted state [blocks] has [gridSize]
    cells and [revealed] at least as many elements; if every click addresses a
    cell of the grid, [revealed] has exactly [gridSize] elements. *)
Theorem board_keeps_grid_size (savedBalance : Q) (random : nat -> Q)
    (acts : list action) :
  length (blocks (run (mountState savedBalance random) acts))
    = gridSize GAME_SETTINGS /\
  (gridSize GAME_SETTINGS
     <= length (JsArray.items (revealed (run (mountState savedBalance random) acts))))%nat /\
  (Forall clickInGrid acts ->
   length (JsArray.items (revealed (run (mountState savedBalance random) acts)))
     = gridSize GAME_SETTINGS).
Proof.
  assert (H : gridShaped (run (mountState savedBalance random) acts)).
  { apply run_invariant_all; [apply gridShaped_step|]. split; [reflexivity|].
    simpl. lia. }
  destruct H as (H1 & H2). repeat split; try assumption.
  intros Hall.
  apply (run_invariant gridExact clickInGrid gridExact_step acts
           (mountState savedBalance random)); [|exact Hall].
  split; reflexivity.
Qed.

(** X10: an accepted click at an array index at or past the end of [revealed]
    grows it to [index + 1] elements. *)
Theorem click_past_end_grows_revealed (s : GameState) (index : Z) :
  arrayIndex index ->
  (Z.of_nat (length (JsArray.items (revealed s))) <= index)%Z ->
  step s (reveal index) <> s ->
  length (JsArray.items (revealed (step s (reveal index)))) = S (Z.to_nat index).
Proof.
  intros (Hpos & _) Hpast Hmoved.
  destruct (step_reveal_inv s index) as [E|(_ & _ & _ & _ & E)]; [contradiction|].
  rewrite E, clickOutcome_revealed, items_after_click.
  destruct (Z.ltb_spec index 0) as [|_]; [lia|].
  apply JsArrayMore.write_length_outside. lia.
Qed.

(** X11: every accepted click at an array index raises the render's
    [revealedCount] by exactly one. *)
Theorem accepted_click_counts_once (s : GameState) (index : Z) :
  arrayIndex index ->
  step s (reveal index) <> s ->
  revealedCount (step s (reveal index)) = S (revealedCount s).
Proof.
  intros (Hpos & _) Hmoved.
  destruct (step_reveal_inv s index) as [E|(Hget & _ & _ & _ & E)]; [contradiction|].
  rewrite E. unfold revealedCount, JsArray.countTrue.
  rewrite clickOutcome_revealed, items_after_click.
  unfold JsArray.get in Hget.
  destruct (Z.ltb_spec index 0) as [|_]; [lia|].
  now apply JsArrayMore.count_write_true.
Qed.

(** *** Resets *)

(** X12: new-game refunds nothing: after an accepted first click, on a gem or a
    ruby, a new game starts with the balance left by the debit and the stake
    carried over. *)
Theorem newRound_forfeits_stake (s : GameState) (index : Z) (random : nat -> Q) :
  isLockedIn s = true -> gameOver s = false ->
  JsArray.get (revealed s) index = false ->
  JsArray.some (revealed s) = false ->
  stake s <= balance s ->
  balance (run s [reveal index; newRound random]) = balance s - stake s /\
  stake (run s [reveal index; newRound random]) = stake s /\
  gameOver (run s [reveal index; newRound random]) = false /\
  isLockedIn (run s [reveal index; newRound random]) = false.
Proof.
  intros Hlock Hover Hget Hfirst Hle.
  rewrite run_cons. rewrite step_reveal_first by assumption.
  change (run ?t [newRound random]) with (step t (newRound random)).
  split; [|split; [|split; reflexivity]].
  - change (balance (clickOutcome s index (debitStake s)) = balance s - stake s).
    now rewrite clickOutcome_balance.
  - change (stake (clickOutcome s index (debitStake s)) = stake s).
    now rewrite clickOutcome_stake.
Qed.

Lemma cashOut_again (t : GameState) (more : list (nat -> Q)) :
  multiplier t = baseMultiplier GAME_SETTINGS ->
  balance (run t (map cashOut more)) =
    creditEach (balance t)
      (map (fun _ => stake t * baseMultiplier GAME_SETTINGS) more) /\
  stake (run t (map cashOut more)) = stake t.
Proof.
  revert t. induction more as [|random more IH]; intros t Hm.
  - split; reflexivity.
  - simpl map. rewrite run_cons.
    destruct (IH (step t (cashOut random)) eq_refl) as (Hbal & Hst).
    rewrite Hbal, Hst.
    change (stake (step t (cashOut random))) with (stake t).
    change (balance (step t (cashOut random)))
      with (balance t + stake t * multiplier t).
    rewrite Hm. split; reflexivity.
Qed.

(** X13: cash-out can be repeated: after a first cash-out, each further one,
    with no stake debited in between, adds stake times the base multiplier to
    the running balance, and the stake stays as it was. *)
Theorem repeated_cashOut_pays_again (s : GameState) (random : nat -> Q)
    (more : list (nat -> Q)) :
  balance (run s (map cashOut (random :: more))) =
    creditEach (balance s + stake s * multiplier s)
      (map (fun _ => stake s * baseMultiplier GAME_SETTINGS) more) /\
  stake (run s (map cashOut (random :: more))) = stake s.
Proof.
  simpl map. rewrite run_cons.
  destruct (cashOut_again (step s (cashOut random)) more eq_refl) as (Hbal & Hst).
  rewrite Hbal, Hst. split; reflexivity.
Qed.

(** *** Sounds *)

(** X14: a click plays a sound exactly when it queues an update: nothing on a
    rejected click, otherwise the gem sound on a gem and the ruby sound on a
    ruby.  Cash-out always plays the gem sound; no other handler plays any. *)
Theorem sound_follows_update (s : GameState) (a : action) :
  played (dispatch s a) =
  match a with
  | reveal index =>
      match updates (dispatch s a) with
      | [] => []
      | _ :: _ => [if blockAt (blocks s) index then gem else ruby]
      end
  | cashOut _ => [gem]
  | _ => []
  end.
Proof.
  destruct a as [amount|newStake|n random|random| |index|random]; simpl;
    try reflexivity.
  - unfold handleStakeChange. now destruct (Qle_bool newStake (balance s)).
  - unfold handleMineCountChange. now destruct (JsArray.some (revealed s)).
  - unfold handleLockIn. now destruct (Qle_bool (stake s) (balance s)).
  - unfold handleBlockClick.
    destruct (JsArray.get (revealed s) index || gameOver s || negb (isLockedIn s));
      [reflexivity|].
    destruct (negb (JsArray.some (revealed s)));
      destruct (Qgt_bool (stake s) (balance s)); simpl;
      destruct (blockAt (blocks s) index); reflexivity.
Qed.

(** *** The flags of the render *)

(** X15: the flags the render hands to the blocks and the controls agree with
    the guards of the handlers: a click on a disabled block is a no-op; the
    controls are disabled exactly when the round is over or [revealed] holds a
    true element; and while the controls are enabled a mine-count edit is
    stored. *)
Theorem render_flags_match_guards (s : GameState) (index n : Z)
    (random : nat -> Q) :
  (blockDisabled s = true -> step s (reveal index) = s) /\
  controlsDisabled s = gameOver s || JsArray.some (revealed s) /\
  (controlsDisabled s = false ->
   mineCount (step s (setHazardCount n random)) = n).
Proof.
  assert (Hflag : controlsDisabled s = gameOver s || JsArray.some (revealed s)).
  { unfold controlsDisabled, revealedCount, JsArray.countTrue, JsArray.some.
    now rewrite JsArrayMore.existsb_count. }
  split; [|split; [exact Hflag|]].
  - unfold blockDisabled. intros H. apply orb_true_iff in H.
    apply step_reveal_rejected. destruct H as [H|H]; auto.
    apply negb_true_iff in H. auto.
  - rewrite Hflag. intros H. apply orb_false_iff in H. destruct H as (_ & H).
    now rewrite step_setHazardCount_accepted.
Qed.

(** *** A winning round *)

Lemma run_gem_clicks (picks : list Z) :
  forall t : GameState,
  isLockedIn t = true -> gameOver t = false ->
  JsArray.some (revealed t) = true ->
  NoDup picks ->
  Forall (fun i => blockAt (blocks t) i = true /\
                   JsArray.get (revealed t) i = false) picks ->
  score (run t (map reveal picks)) = (score t + length picks)%nat /\
  balance (run t (map reveal picks)) = balance t /\
  stake (run t (map reveal picks)) = stake t /\
  gameOver (run t (map reveal picks)) = false /\
  (picks <> [] ->
   multiplier (run t (map reveal picks)) =
   calculateMultiplier (baseMultiplier GAME_SETTINGS) (riskFactor GAME_SETTINGS)
                       (score t + length picks)%nat).
Proof.
  induction picks as [|i picks IH]; intros t Hlock Hover Hsome Hnd Hall.
  - simpl. repeat split; auto. intros H. now elim H.
  - inversion Hnd as [|? ? Hnotin Hnd']; subst.
    inversion Hall as [|? ? (Hgem & Hget) Hall']; subst.
    simpl map. rewrite run_cons.
    pose proof (step_reveal_later calculateMultiplier t i Hget Hover Hlock Hsome) as E.
    destruct (blockAt_gem _ _ Hgem) as (Hpos & _).
    set (t1 := step t (reveal i)) in *.
    assert (Hb1 : blocks t1 = blocks t)
      by (rewrite E; apply clickOutcome_blocks).
    assert (Hr1 : revealed t1 = JsArray.set (JsArray.spread (revealed t)) i true)
      by (rewrite E; apply clickOutcome_revealed).
    assert (Hs1 : score t1 = (score t + 1)%nat)
      by (rewrite E, clickOutcome_score, Hgem; reflexivity).
    assert (Hm1 : multiplier t1 =
                  calculateMultiplier (baseMultiplier GAME_SETTINGS)
                    (riskFactor GAME_SETTINGS) (score t + 1)%nat)
      by (rewrite E, clickOutcome_multiplier, Hgem; reflexivity).
    assert (Hl1 : isLockedIn t1 = true)
      by (rewrite E, clickOutcome_isLockedIn; assumption).
    assert (Ho1 : gameOver t1 = false)
      by (rewrite E, clickOutcome_gameOver, Hover, Hgem; reflexivity).
    assert (Hbal1 : balance t1 = balance t)
      by (rewrite E; apply clickOutcome_balance).
    assert (Hst1 : stake t1 = stake t)
      by (rewrite E; apply clickOutcome_stake).
    assert (Hsome1 : JsArray.some (revealed t1) = true)
      by (rewrite Hr1; now apply JsArrayFacts.some_set_true).
    assert (Hall1 : Forall (fun j => blockAt (blocks t1) j = true /\
                                     JsArray.get (revealed t1) j = false) picks).
    { apply Forall_forall. intros j Hj.
      rewrite Forall_forall in Hall'. destruct (Hall' j Hj) as (Hgj & Hrj).
      rewrite Hb1, Hr1. split; [assumption|].
      destruct (blockAt_gem _ _ Hgj) as (Hjpos & _).
      rewrite JsArrayMore.get_set_other; auto.
      intros ->. contradiction. }
    destruct (IH t1 Hl1 Ho1 Hsome1 Hnd' Hall1) as (K1 & K2 & K3 & K4 & K5).
    simpl length.
    repeat split; try congruence.
    + rewrite K1, Hs1. lia.
    + intros _. destruct picks as [|j picks'].
      * simpl. rewrite Hm1. reflexivity.
      * rewrite K5 by discriminate. f_equal. rewrite Hs1. simpl length. lia.
Qed.

(** X16: a winning round from a locked-in, untouched board with the stake
    covered: after clicks on distinct gems the score has grown by their number,
    the multiplier is [calculateMultiplier] of the score, the balance is the
    old balance minus the stake, and a cash-out then leaves the old balance
    minus the stake plus stake times that multiplier. *)
Theorem winning_round_pays_stake_times_multiplier (s : GameState) (first : Z)
    (picks : list Z) (random : nat -> Q) :
  isLockedIn s = true -> gameOver s = false ->
  JsArray.some (revealed s) = false ->
  stake s <= balance s ->
  NoDup (first :: picks) ->
  Forall (fun i => blockAt (blocks s) i = true) (first :: picks) ->
  score (run s (map reveal (first :: picks))) = (score s + S (length picks))%nat /\
  multiplier (run s (map reveal (first :: picks))) =
    calculateMultiplier (baseMultiplier GAME_SETTINGS) (riskFactor GAME_SETTINGS)
                        (score s + S (length picks))%nat /\
  balance (run s (map reveal (first :: picks))) = balance s - stake s /\
  gameOver (run s (map reveal (first :: picks))) = false /\
  balance (run s (map reveal (first :: picks) ++ [cashOut random])) =
    balance s - stake s
    + stake s * calculateMultiplier (baseMultiplier GAME_SETTINGS)
                  (riskFactor GAME_SETTINGS) (score s + S (length picks))%nat.
Proof.
  intros Hlock Hover Hfirst Hle Hnd Hall.
  assert (Hunrevealed : forall i, blockAt (blocks s) i = true ->
                                  JsArray.get (revealed s) i = false).
  { intros i Hi. destruct (blockAt_gem _ _ Hi) as (Hpos & _).
    unfold JsArray.get. destruct (Z.ltb_spec i 0) as [|_]; [lia|].
    now apply JsArrayMore.existsb_false_nth. }
  inversion Hnd as [|? ? Hnotin Hnd']; subst.
  inversion Hall as [|? ? Hgem Hall']; subst.
  destruct (blockAt_gem _ _ Hgem) as (Hpos & _).
  pose proof (step_reveal_first calculateMultiplier s first
                (Hunrevealed first Hgem) Hover Hlock Hfirst Hle) as E.
  simpl map. rewrite run_app, run_cons.
  set (t := step s (reveal first)) in *.
  assert (Hb : blocks t = blocks s)
    by (rewrite E, clickOutcome_blocks; reflexivity).
  assert (Hr : revealed t = JsArray.set (JsArray.spread (revealed s)) first true)
    by (rewrite E; apply clickOutcome_revealed).
  assert (Hs : score t = (score s + 1)%nat)
    by (rewrite E, clickOutcome_score, Hgem; reflexivity).
  assert (Hm : multiplier t =
               calculateMultiplier (baseMultiplier GAME_SETTINGS)
                 (riskFactor GAME_SETTINGS) (score s + 1)%nat)
    by (rewrite E, clickOutcome_multiplier, Hgem; reflexivity).
  assert (Hl : isLockedIn t = true)
    by (rewrite E, clickOutcome_isLockedIn; assumption).
  assert (Ho : gameOver t = false)
    by (rewrite E, clickOutcome_gameOver, Hgem; simpl; now rewrite Hover).
  assert (Hbal : balance t = balance s - stake s)
    by (rewrite E, clickOutcome_balance; reflexivity).
  assert (Hst : stake t = stake s)
    by (rewrite E, clickOutcome_stake; reflexivity).
  assert (Hsome : JsArray.some (revealed t) = true)
    by (rewrite Hr; now apply JsArrayFacts.some_set_true).
  assert (Hrest : Forall (fun j => blockAt (blocks t) j = true /\
                                   JsArray.get (revealed t) j = false) picks).
  { apply Forall_forall. intros j Hj.
    rewrite Forall_forall in Hall'. pose proof (Hall' j Hj) as Hgj.
    rewrite Hb, Hr. split; [assumption|].
    destruct (blockAt_gem _ _ Hgj) as (Hjpos & _).
    rewrite JsArrayMore.get_set_other; auto.
    intros ->. contradiction. }
  destruct (run_gem_clicks picks t Hl Ho Hsome Hnd' Hrest)
    as (K1 & K2 & K3 & K4 & K5).
  assert (Kscore : score (run t (map reveal picks)) = (score s + S (length picks))%nat)
    by (rewrite K1, Hs; lia).
  assert (Kmul : multiplier (run t (map reveal picks)) =
                 calculateMultiplier (baseMultiplier GAME_SETTINGS)
                   (riskFactor GAME_SETTINGS) (score s + S (length picks))%nat).
  { destruct picks as [|j picks'].
    - simpl. rewrite Hm. reflexivity.
    - rewrite K5 by discriminate. f_equal. rewrite Hs. simpl length. lia. }
  repeat split; try congruence.
  change (run ?u [cashOut random]) with (step u (cashOut random)).
  change (balance (step (run t (map reveal picks)) (cashOut random)))
    with (balance (run t (map reveal picks))
          + stake (run t (map reveal picks)) * multiplier (run t (map reveal picks))).
  now rewrite K2, K3, Kmul, Hbal, Hst.
Qed.

(** X19: lock-in does not fix the stake: a stake entered after lock-in, within
    the balance, is the one the first click debits. *)
Theorem stake_edit_after_lock_in_is_debited (s : GameState) (newStake : Q)
    (index : Z) :
  gameOver s = false ->
  JsArray.some (revealed s) = false ->
  JsArray.get (revealed s) index = false ->
  stake s <= balance s ->
  newStake <= balance s ->
  balance (run s [lockIn; setStake newStake; reveal index]) = balance s - newStake /\
  stake (run s [lockIn; setStake newStake; reveal index]) = newStake /\
  isLockedIn (run s [lockIn; setStake newStake; reveal index]) = true.
Proof.
  intros Hover Hfirst Hget Hle Hnew.
  rewrite !run_cons. change (run ?t []) with t.
  assert (E1 : step s lockIn = {|
    blocks := blocks s; revealed := revealed s; gameOver := gameOver s;
    score := score s; stake := stake s; multiplier := multiplier s;
    potentialPayout := potentialPayout s; mineCount := mineCount s;
    balance := balance s; isPlaying := isPlaying s; isLockedIn := true |}).
  { apply Qle_bool_iff in Hle. unfold step, dispatch, handleLockIn, commit.
    now rewrite Hle. }
  rewrite E1.
  rewrite (step_setStake_accepted calculateMultiplier _ newStake) by exact Hnew.
  simpl.
  rewrite step_reveal_first by (simpl; first [assumption | reflexivity]).
  rewrite clickOutcome_balance, clickOutcome_stake, clickOutcome_isLockedIn.
  repeat split; reflexivity.
Qed.

End Sessions.

(** ** The grid draw *)

Lemma drawBlocks_nth (size : nat) (mines : Z) (random : nat -> Q) (i : nat) :
  (i < size)%nat ->
  nth i (drawBlocks size mines random) false =
  Qle_bool (inject_Z mines / inject_Z (Z.of_nat size)) (random i).
Proof.
  intros Hi. unfold drawBlocks.
  rewrite (nth_indep _ false
             (Qle_bool (inject_Z mines / inject_Z (Z.of_nat size)) (random 0%nat)))
    by (now rewrite length_map, length_seq).
  rewrite (map_nth (fun i => Qle_bool (inject_Z mines / inject_Z (Z.of_nat size))
                                      (random i)) (seq 0 size) 0%nat i).
  now rewrite seq_nth.
Qed.

Lemma mine_ratio_monotone (size : nat) (fewer more : Z) :
  (0 < size)%nat -> (fewer <= more)%Z ->
  inject_Z fewer / inject_Z (Z.of_nat size) <= inject_Z more / inject_Z (Z.of_nat size).
Proof.
  intros Hsize Hle. unfold Qdiv.
  apply Qmult_le_compat_r.
  - now rewrite <- Zle_Qle.
  - apply Qinv_le_0_compat. replace 0 with (inject_Z 0) by reflexivity.
    rewrite <- Zle_Qle. lia.
Qed.

(** X17: for the same draws, a cell that is a gem at some mine count is a gem
    at every smaller mine count: raising the count only turns gems into
    rubies. *)
Theorem drawBlocks_monotone (size : nat) (fewer more : Z) (random : nat -> Q)
    (i : nat) :
  (0 < size)%nat -> (fewer <= more)%Z ->
  nth i (drawBlocks size more random) false = true ->
  nth i (drawBlocks size fewer random) false = true.
Proof.
  intros Hsize Hle Hgem.
  destruct (Nat.lt_ge_cases i size) as [Hi|Hi].
  - rewrite drawBlocks_nth in * by assumption.
    apply Qle_bool_iff. apply Qle_bool_iff in Hgem.
    eapply Qle_trans; [|exact Hgem]. now apply mine_ratio_monotone.
  - rewrite nth_overflow in Hgem; [discriminate|].
    now rewrite drawBlocks_length.
Qed.

(** X18: with draws in [0, 1), as [Math.random] gives them, a mine count of zero
    or less makes every cell a gem and a mine count of the grid size or more
    makes every cell a ruby; the grid always has [size] cells. *)
Theorem drawBlocks_extremes (size : nat) (mines : Z) (random : nat -> Q) :
  (0 < size)%nat ->
  (forall i, 0 <= random i /\ random i < 1) ->
  length (drawBlocks size mines random) = size /\
  ((mines <= 0)%Z -> drawBlocks size mines random = repeat true size) /\
  ((Z.of_nat size <= mines)%Z -> drawBlocks size mines random = repeat false size).
Proof.
  intros Hsize Hrange.
  assert (Hconst : forall v, (forall i, (i < size)%nat ->
                       Qle_bool (inject_Z mines / inject_Z (Z.of_nat size)) (random i) = v) ->
                     drawBlocks size mines random = repeat v size).
  { intros v Hv. apply (nth_ext _ _ false false).
    - now rewrite drawBlocks_length, repeat_length.
    - intros i Hi. rewrite drawBlocks_length in Hi.
      rewrite drawBlocks_nth by assumption. rewrite Hv by assumption.
      symmetry. apply nth_repeat_lt. assumption. }
  split; [apply drawBlocks_length|]. split; intros Hm; apply Hconst; intros i Hi.
  - apply Qle_bool_iff. destruct (Hrange i) as (H0 & _).
    eapply Qle_trans; [|exact H0].
    eapply Qle_trans; [apply (mine_ratio_monotone size mines 0 Hsize Hm)|].
    unfold Qdiv. rewrite Qmult_0_l. apply Qle_refl.
  - destruct (Qle_bool _ (random i)) eqn:E; [|reflexivity].
    apply Qle_bool_iff in E. destruct (Hrange i) as (_ & H1).
    exfalso. apply (Qlt_not_le _ _ H1).
    eapply Qle_trans; [|exact E].
    eapply Qle_trans;
      [|apply (mine_ratio_monotone size (Z.of_nat size) mines Hsize Hm)].
    unfold Qdiv. rewrite Qmult_inv_r; [apply Qle_refl|].
    intros H. apply (inject_Z_injective (Z.of_nat size) 0) in H. lia.
Qed.

(** ** Concrete runs of the further properties *)

Lemma lock_in_lasts_until_reset_witness :
  isLockedIn (lockedBoard allGems) = true /\
  isLockedIn (run compoundMultiplier (lockedBoard allGems)
                [reveal 0; deposit 1; setStake 2; setHazardCount 3 allGems; reveal 40])
    = true.
Proof.
  exact (conj eq_refl
           (proj2 (lock_in_lasts_until_reset compoundMultiplier (lockedBoard allGems)
                     lockIn
                     [reveal 0; deposit 1; setStake 2; setHazardCount 3 allGems;
                      reveal 40])
                  eq_refl eq_refl)).
Defined.

Lemma locked_stake_always_covered_witness :
  Forall nonNegativeDeposit [deposit 5; setStake 12; lockIn] /\
  stake (run compoundMultiplier (mountState 10 allGems)
             [deposit 5; setStake 12; lockIn])
    <= balance (run compoundMultiplier (mountState 10 allGems)
                    [deposit 5; setStake 12; lockIn]) /\
  balance (step compoundMultiplier
             (run compoundMultiplier (mountState 10 allGems)
                  [deposit 5; setStake 12; lockIn]) (reveal 0)) =
    balance (run compoundMultiplier (mountState 10 allGems)
                 [deposit 5; setStake 12; lockIn])
    - stake (run compoundMultiplier (mountState 10 allGems)
                 [deposit 5; setStake 12; lockIn]).
Proof.
  assert (Hall : Forall nonNegativeDeposit [deposit 5; setStake 12; lockIn])
    by (repeat constructor; simpl; discriminate).
  exact (conj Hall
           (locked_stake_always_covered compoundMultiplier 10 allGems
              [deposit 5; setStake 12; lockIn] 0 Hall
              eq_refl eq_refl eq_refl eq_refl)).
Defined.


Lemma round_frozen_after_game_over_witness :
  gameOver lostBoard = true /\
  gameOver (run compoundMultiplier lostBoard
              [reveal 4; deposit 2; setStake 3; lockIn]) = true /\
  revealed (run compoundMultiplier lostBoard
              [reveal 4; deposit 2; setStake 3; lockIn]) = revealed lostBoard.
Proof.
  destruct (round_frozen_after_game_over compoundMultiplier lostBoard
              [reveal 4; deposit 2; setStake 3; lockIn] 5 eq_refl eq_refl)
    as (Hover & Hrev & _).
  exact (conj eq_refl (conj Hover Hrev)).
Defined.

Lemma board_keeps_grid_size_witness :
  Forall clickInGrid sampleSession /\
  length (JsArray.items (revealed (run compoundMultiplier (mountState 10 allGems)
                                       sampleSession)))
    = gridSize GAME_SETTINGS.
Proof.
  assert (Hall : Forall clickInGrid sampleSession)
    by (repeat constructor; simpl; lia).
  exact (conj Hall
           (proj2 (proj2 (board_keeps_grid_size compoundMultiplier 10 allGems
                            sampleSession)) Hall)).
Defined.

Lemma click_past_end_grows_revealed_witness :
  arrayIndex 30 /\
  (Z.of_nat (length (JsArray.items (revealed (lockedBoard allGems)))) <= 30)%Z /\
  step compoundMultiplier (lockedBoard allGems) (reveal 30) <> lockedBoard allGems /\
  length (JsArray.items (revealed (step compoundMultiplier (lockedBoard allGems)
                                        (reveal 30)))) = 31%nat.
Proof.
  assert (Hidx : arrayIndex 30) by (unfold arrayIndex; simpl; lia).
  assert (Hpast : (Z.of_nat (length (JsArray.items (revealed (lockedBoard allGems))))
                   <= 30)%Z) by (simpl; lia).
  assert (Hmoved : step compoundMultiplier (lockedBoard allGems) (reveal 30)
                   <> lockedBoard allGems).
  { intros E. apply (f_equal gameOver) in E. vm_compute in E. discriminate. }
  exact (conj Hidx (conj Hpast (conj Hmoved
           (click_past_end_grows_revealed compoundMultiplier (lockedBoard allGems) 30
              Hidx Hpast Hmoved)))).
Defined.

Lemma accepted_click_counts_once_witness :
  arrayIndex 7 /\
  step compoundMultiplier playingBoard (reveal 7) <> playingBoard /\
  revealedCount (step compoundMultiplier playingBoard (reveal 7))
    = S (revealedCount playingBoard).
Proof.
  assert (Hidx : arrayIndex 7) by (unfold arrayIndex; simpl; lia).
  assert (Hmoved : step compoundMultiplier playingBoard (reveal 7) <> playingBoard).
  { intros E. apply (f_equal score) in E. vm_compute in E. discriminate. }
  exact (conj Hidx (conj Hmoved
           (accepted_click_counts_once compoundMultiplier playingBoard 7
              Hidx Hmoved))).
Defined.

Lemma newRound_forfeits_stake_witness :
  stake (lockedBoard allGems) <= balance (lockedBoard allGems) /\
  balance (run compoundMultiplier (lockedBoard allGems) [reveal 0; newRound allRubies])
    = balance (lockedBoard allGems) - stake (lockedBoard allGems).
Proof.
  assert (Hle : stake (lockedBoard allGems) <= balance (lockedBoard allGems))
    by (vm_compute; discriminate).
  exact (conj Hle
           (proj1 (newRound_forfeits_stake compoundMultiplier (lockedBoard allGems) 0
                     allRubies eq_refl eq_refl eq_refl eq_refl Hle))).
Defined.

Lemma render_flags_match_guards_witness :
  blockDisabled lostBoard = true /\
  step compoundMultiplier lostBoard (reveal 9) = lostBoard /\
  controlsDisabled (lockedBoard allGems) = false /\
  mineCount (step compoundMultiplier (lockedBoard allGems)
                  (setHazardCount 8 allGems)) = 8%Z.
Proof.
  exact (conj eq_refl
          (conj (proj1 (render_flags_match_guards compoundMultiplier lostBoard 9 8
                          allGems) eq_refl)
          (conj eq_refl
                (proj2 (proj2 (render_flags_match_guards compoundMultiplier
                                 (lockedBoard allGems) 9 8 allGems)) eq_refl)))).
Defined.

Lemma winning_round_pays_stake_times_multiplier_witness :
  stake (lockedBoard allGems) <= balance (lockedBoard allGems) /\
  NoDup [0; 1; 2]%Z /\
  Forall (fun i => blockAt (blocks (lockedBoard allGems)) i = true) [0; 1; 2]%Z /\
  score (run compoundMultiplier (lockedBoard allGems) (map reveal [0; 1; 2]%Z))
    = 3%nat /\
  balance (run compoundMultiplier (lockedBoard allGems)
             (map reveal [0; 1; 2]%Z ++ [cashOut allGems])) =
    balance (lockedBoard allGems) - stake (lockedBoard allGems)
    + stake (lockedBoard allGems)
      * compoundMultiplier (baseMultiplier GAME_SETTINGS) (riskFactor GAME_SETTINGS) 3.
Proof.
  assert (Hle : stake (lockedBoard allGems) <= balance (lockedBoard allGems))
    by (vm_compute; discriminate).
  assert (Hnd : NoDup [0; 1; 2]%Z).
  { repeat constructor; simpl; intuition discriminate. }
  assert (Hall : Forall (fun i => blockAt (blocks (lockedBoard allGems)) i = true)
                        [0; 1; 2]%Z) by (repeat constructor).
  destruct (winning_round_pays_stake_times_multiplier compoundMultiplier
              (lockedBoard allGems) 0 [1; 2]%Z allGems
              eq_refl eq_refl eq_refl Hle Hnd Hall)
    as (Hscore & _ & _ & _ & Hcash).
  exact (conj Hle (conj Hnd (conj Hall (conj Hscore Hcash)))).
Defined.

Lemma drawBlocks_monotone_witness :
  (0 < 25)%nat /\ (3 <= 5)%Z /\
  nth 0 (drawBlocks 25 5 allGems) false = true /\
  nth 0 (drawBlocks 25 3 allGems) false = true.
Proof.
  assert (Hsize : (0 < 25)%nat) by lia.
  assert (Hle : (3 <= 5)%Z) by lia.
  exact (conj Hsize (conj Hle (conj eq_refl
           (drawBlocks_monotone 25 3 5 allGems 0 Hsize Hle eq_refl)))).
Defined.

Lemma drawBlocks_extremes_witness :
  (0 < 25)%nat /\
  (forall i, 0 <= allGems i /\ allGems i < 1) /\
  drawBlocks 25 25 allGems = repeat false 25.
Proof.
  assert (Hsize : (0 < 25)%nat) by lia.
  assert (Hrange : forall i, 0 <= allGems i /\ allGems i < 1).
  { intros i. unfold allGems. split; [discriminate|reflexivity]. }
  assert (Hmines : (Z.of_nat 25 <= 25)%Z) by (simpl; lia).
  exact (conj Hsize (conj Hrange
           (proj2 (proj2 (drawBlocks_extremes 25 25 allGems Hsize Hrange)) Hmines))).
Defined.

Lemma payoutConsistent_step_witness :
  payoutConsistent stakedBoard /\
  payoutConsistent (step compoundMultiplier stakedBoard (setStake 7)).
Proof.
  assert (Hs : payoutConsistent stakedBoard) by reflexivity.
  exact (conj Hs (payoutConsistent_step compoundMultiplier stakedBoard (setStake 7) Hs)).
Defined.

Lemma stake_edit_after_lock_in_is_debited_witness :
  stake (mountState 10 allGems) <= balance (mountState 10 allGems) /\
  4 <= balance (mountState 10 allGems) /\
  balance (run compoundMultiplier (mountState 10 allGems)
               [lockIn; setStake 4; reveal 0])
    = balance (mountState 10 allGems) - 4.
Proof.
  assert (Hle : stake (mountState 10 allGems) <= balance (mountState 10 allGems))
    by (vm_compute; discriminate).
  assert (Hnew : 4 <= balance (mountState 10 allGems)) by (vm_compute; discriminate).
  exact (conj Hle (conj Hnew
           (proj1 (stake_edit_after_lock_in_is_debited compoundMultiplier
                     (mountState 10 allGems) 4 0 eq_refl eq_refl eq_refl Hle Hnew)))).
Defined.
